(** * Symmetric broadband splitter notebook (04-Splitter)

    A shallow embedding of the notebook's own logic: the geometric
    parameters, the boundary bit masks, the initial design vector and its
    bounds, the filter/projection [mapping], the objective [J], the
    optimizer callback [f] and the beta-continuation loop.

    Numbers.  The grid coordinates and masks only involve [np.linspace]
    and comparisons with decimal literals; they are modelled over the
    rationals [Q], where every comparison is decidable and computes
    ([mask_comparisons_have_margin] shows that no comparison on this
    grid is close enough to a tie for rounding to matter).  The
    simulation data handled by [J] and [f] (mode coefficients, objective
    values, gradients) are modelled over the real numbers [R].

    Libraries.  meep, meep.adjoint, autograd, matplotlib and nlopt are
    not part of the notebook: they are a parameter of the model (the
    record [Library]), free to return anything, to change their own
    state and to raise.  The only behaviour assumed of them is nlopt's
    [maxeval] stopping criterion, which is built into the model of
    [solver.optimize]. *)

From Stdlib Require Import String.
From Stdlib Require Import List ZArith QArith Qabs Lia Lqa Bool Arith.
From Stdlib Require Import Reals Lra.
Import ListNotations.

Set Implicit Arguments.

(* ================================================================= *)
(** ** Array primitives (numpy) over lists *)

Module Np.

(** Element-wise combination of two arrays of equal length. *)
Fixpoint zip_with {A B C : Type} (f : A -> B -> C)
         (a : list A) (b : list B) : list C :=
  match a, b with
  | x :: a', y :: b' => f x y :: zip_with f a' b'
  | _, _ => []
  end.

(** One axis of numpy broadcasting: an axis of length 1 is stretched
    to the other operand's length.  Incompatible lengths make numpy
    raise; the grid code below only ever combines shapes (Nx,1),
    (1,Ny) and (Nx,Ny). *)
Definition bcast {A B C : Type} (f : A -> B -> C)
           (a : list A) (b : list B) : list C :=
  match a, b with
  | [x], _ => map (f x) b
  | _, [y] => map (fun x => f x y) a
  | _, _ => zip_with f a b
  end.

(** A two-dimensional array is a list of rows. *)
Definition array2 (A : Type) : Type := list (list A).

Definition bcast2 {A B C : Type} (f : A -> B -> C)
           (a : array2 A) (b : array2 B) : array2 C :=
  bcast (bcast f) a b.

(** [op(array, scalar)] *)
Definition amap {A B : Type} (f : A -> B) (a : array2 A) : array2 B :=
  map (map f) a.

(** [np.linspace(start, stop, num)]: [arange(0, num) * step + start]
    with [step = (stop - start) / (num - 1)], the last sample being
    overwritten by [stop]. *)
Definition linspace (start stop : Q) (num : nat) : list Q :=
  match num with
  | O => []
  | S O => [start]
  | S d =>
      let step := (stop - start) / inject_Z (Z.of_nat d) in
      map (fun i => inject_Z (Z.of_nat i) * step + start) (seq 0 d)
          ++ [stop]
  end.

(** [np.meshgrid(x, y, sparse=True, indexing="ij")]: a column of shape
    (Nx,1) and a row of shape (1,Ny). *)
Definition meshgrid_sparse_ij (x y : list Q) : array2 Q * array2 Q :=
  (map (fun v => [v]) x, [y]).

(** [A[M] = v] for a boolean mask [M] of the shape of [A]. *)
Definition mask_assign {A : Type} (a : list A) (m : list bool) (v : A)
  : list A :=
  zip_with (fun ai mi => if mi : bool then v else ai) a m.

Definition mask_assign2 {A : Type} (a : array2 A) (m : array2 bool) (v : A)
  : array2 A :=
  zip_with (fun row mrow => mask_assign row mrow v) a m.

(** [A.flatten()] (row-major). *)
Definition flatten {A : Type} (a : array2 A) : list A := concat a.

(** [A[i, j]] *)
Definition get2 {A : Type} (a : array2 A) (i j : nat) (d : A) : A :=
  nth j (nth i a []) d.

(** [np.ones((n,))], [np.zeros((n,))] *)
Definition ones (n : nat) : list Q := repeat 1%Q n.
Definition zeros (n : nat) : list Q := repeat 0%Q n.

End Np.

(* ================================================================= *)
(** ** Parameters of the notebook (cells 3 and 7) *)

(** Python's [int(.)] on a number: truncation toward zero. *)
Definition int (q : Q) : Z := Z.quot (Qnum q) (Zpos (Qden q)).

Definition waveguide_width : Q := 0.5.
Definition design_region_width : Q := 2.5.
Definition design_region_height : Q := 2.5.
Definition arm_separation : Q := 1.0.
Definition waveguide_length : Q := 0.5.
Definition pml_size : Q := 1.0.
Definition resolution : Z := 20.

Definition minimum_length : Q := 0.09.
Definition eta_e : Q := 0.55.
Definition eta_i : Q := 0.5.
Definition eta_d : Q := 1 - eta_e.
Definition design_region_resolution : Z := int (inject_Z (5 * resolution)).

Definition Nx : nat :=
  Z.to_nat (int (inject_Z design_region_resolution * design_region_width)).
Definition Ny : nat :=
  Z.to_nat (int (inject_Z design_region_resolution * design_region_height)).

(* ================================================================= *)
(** ** Boundary bit masks (cell 11) *)

Definition x_g : list Q :=
  Np.linspace (- design_region_width / 2) (design_region_width / 2) Nx.
Definition y_g : list Q :=
  Np.linspace (- design_region_height / 2) (design_region_height / 2) Ny.
Definition X_g : Np.array2 Q := fst (Np.meshgrid_sparse_ij x_g y_g).
Definition Y_g : Np.array2 Q := snd (Np.meshgrid_sparse_ij x_g y_g).

Definition left_wg_mask : Np.array2 bool :=
  Np.bcast2 andb
    (Np.amap (fun x => Qeq_bool x (- design_region_width / 2)) X_g)
    (Np.amap (fun y => Qle_bool y (waveguide_width / 2))
       (Np.amap Qabs Y_g)).

Definition top_right_wg_mask : Np.array2 bool :=
  Np.bcast2 andb
    (Np.amap (fun x => Qeq_bool x (design_region_width / 2)) X_g)
    (Np.amap (fun y => Qle_bool y (waveguide_width / 2))
       (Np.amap Qabs (Np.amap (fun y => y + arm_separation / 2) Y_g))).

Definition bottom_right_wg_mask : Np.array2 bool :=
  Np.bcast2 andb
    (Np.amap (fun x => Qeq_bool x (design_region_width / 2)) X_g)
    (Np.amap (fun y => Qle_bool y (waveguide_width / 2))
       (Np.amap Qabs (Np.amap (fun y => y - arm_separation / 2) Y_g))).

Definition Si_mask : Np.array2 bool :=
  Np.bcast2 orb (Np.bcast2 orb left_wg_mask top_right_wg_mask)
    bottom_right_wg_mask.

Definition border_mask : Np.array2 bool :=
  Np.bcast2 orb
    (Np.bcast2 orb
       (Np.bcast2 orb
          (Np.amap (fun x => Qeq_bool x (- design_region_width / 2)) X_g)
          (Np.amap (fun x => Qeq_bool x (design_region_width / 2)) X_g))
       (Np.amap (fun y => Qeq_bool y (- design_region_height / 2)) Y_g))
    (Np.amap (fun y => Qeq_bool y (design_region_height / 2)) Y_g).

(** [SiO2_mask = border_mask.copy(); SiO2_mask[Si_mask] = False] *)
Definition SiO2_mask : Np.array2 bool :=
  Np.mask_assign2 border_mask Si_mask false.

(* ================================================================= *)
(** ** Initial guess and bounds (cell 21, before the loop) *)

Definition n : nat := (Nx * Ny)%nat.

Definition x_init : list Q :=
  let x := map (fun v => v * 0.5) (Np.ones n) in
  let x := Np.mask_assign x (Np.flatten Si_mask) 1 in
  Np.mask_assign x (Np.flatten SiO2_mask) 0.

Definition lb : list Q :=
  Np.mask_assign (Np.zeros (Nx * Ny)) (Np.flatten Si_mask) 1.

Definition ub : list Q :=
  Np.mask_assign (Np.ones (Nx * Ny)) (Np.flatten SiO2_mask) 0.

(* ================================================================= *)
(** ** Complex numbers and the autograd.numpy operations used by [J] *)

Module Cplx.

Definition C : Type := (R * R)%type.

Definition Cdiv (a b : C) : C :=
  let d := (fst b * fst b + snd b * snd b)%R in
  (((fst a * fst b + snd a * snd b) / d)%R,
   ((snd a * fst b - fst a * snd b) / d)%R).

(** [abs(z)]: the modulus. *)
Definition Cabs (z : C) : R := sqrt (fst z * fst z + snd z * snd z).

(** The squared modulus, without the square root. *)
Definition Cnorm2 (z : C) : R := (fst z * fst z + snd z * snd z)%R.

Definition C0 : C := (0%R, 0%R).

End Cplx.
Import Cplx.

(* ================================================================= *)
(** ** Effects: calls into the wrapped libraries, exceptions, globals *)

(** A raised Python exception, identified by its class. *)
Inductive exn : Type := Exn (cls : string).

Definition IndexError : exn := Exn "IndexError".
Definition ValueError : exn := Exn "ValueError".

Inductive res (A : Type) : Type :=
| Ok (a : A)
| Raise (e : exn).
Arguments Raise {A} e.

(** What one call into a wrapped library did. *)
Inductive outcome : Type :=
| Returned (fn : string)
| Raised (fn : string) (e : exn).

(** The lines the notebook prints:
    ["Current iteration: k"] and ["current beta:  b"]. *)
Inductive line : Type :=
| CurrentIteration (k : Z)
| CurrentBeta (b : Z).

(** The mutable module-level variables of cells 19 and 21, and the
    printed output. *)
Record globals : Type := Globals {
  evaluation_history : list R;
  cur_iter : list Z;
  cur_beta : Z;
  x_var : list R;
  stdout : list line
}.

Definition set_evaluation_history (h : list R) (g : globals) : globals :=
  Globals h (cur_iter g) (cur_beta g) (x_var g) (stdout g).
Definition set_cur_iter (c : list Z) (g : globals) : globals :=
  Globals (evaluation_history g) c (cur_beta g) (x_var g) (stdout g).
Definition set_cur_beta (b : Z) (g : globals) : globals :=
  Globals (evaluation_history g) (cur_iter g) b (x_var g) (stdout g).
Definition set_x_var (v : list R) (g : globals) : globals :=
  Globals (evaluation_history g) (cur_iter g) (cur_beta g) v (stdout g).
Definition set_stdout (o : list line) (g : globals) : globals :=
  Globals (evaluation_history g) (cur_iter g) (cur_beta g) (x_var g) o.

(** A library operation acts on the libraries' own state [W] (simulator,
    figures, files, optimizer internals) and returns or raises. *)
Definition op (W X : Type) : Type := W -> (exn + X) * W.

Section Effects.

Variable W : Type.

Record state : Type := State { world : W; vars : globals }.

Record run (A : Type) : Type := Run {
  trace : list outcome;
  result : res A;
  final : state
}.

(** A notebook computation.  An exception ends the computation; what
    was changed before it was raised stays changed. *)
Definition M (A : Type) : Type := state -> run A.

Definition ret {A : Type} (a : A) : M A :=
  fun s => Run [] (Ok a) s.

Definition raise {A : Type} (e : exn) : M A :=
  fun s => Run [] (Raise e) s.

(** The run [r], made after the library calls [tr]. *)
Definition after {A : Type} (tr : list outcome) (r : run A) : run A :=
  Run (tr ++ trace r) (result r) (final r).

Definition bind {A B : Type} (m : M A) (k : A -> M B) : M B :=
  fun s =>
    match m s with
    | Run tr (Ok a) s1 => after tr (k a s1)
    | Run tr (Raise e) s1 => Run tr (Raise e) s1
    end.

(** A call of library function [fn]. *)
Definition call {X : Type} (fn : string) (o : op W X) : M X :=
  fun s =>
    match o (world s) with
    | (inr v, w) => Run [Returned fn] (Ok v) (State w (vars s))
    | (inl e, w) => Run [Raised fn e] (Raise e) (State w (vars s))
    end.

(** A library function without side effect. *)
Definition call_pure {X : Type} (fn : string) (r : exn + X) : M X :=
  call fn (fun w => (r, w)).

Definition read {X : Type} (field : globals -> X) : M X :=
  fun s => Run [] (Ok (field (vars s))) s.

Definition write (upd : globals -> globals) : M unit :=
  fun s => Run [] (Ok tt) (State (world s) (upd (vars s))).

Definition print (l : line) : M unit :=
  write (fun g => set_stdout (stdout g ++ [l]) g).

End Effects.

Arguments ret {W A} a.
Arguments raise {W A} e.
Arguments read {W X} field.
Arguments write {W} upd.
Arguments print {W} l.
Arguments call_pure {W X} fn r.

Declare Scope nb_scope.
Delimit Scope nb_scope with nb.
Notation "x <- m ;; k" := (bind m (fun x => k))
  (at level 61, m at next level, right associativity) : nb_scope.
Notation "' p <- m ;; k" := (bind m (fun p => k))
  (at level 61, p pattern, m at next level, right associativity) : nb_scope.
Notation "m ;; k" := (bind m (fun _ => k))
  (at level 61, right associativity) : nb_scope.

(* ================================================================= *)
(** ** numpy / autograd.numpy on one-dimensional arrays *)

Module Npa.

Definition broadcastable (la lb : nat) : bool :=
  (la =? lb)%nat || (la =? 1)%nat || (lb =? 1)%nat.

(** A binary element-wise operator; numpy raises [ValueError] when the
    operands cannot be broadcast together. *)
Definition binop {A B X : Type} (f : A -> B -> X)
           (a : list A) (b : list B) : exn + list X :=
  if broadcastable (length a) (length b)
  then inr (Np.bcast f a b) else inl ValueError.

Definition divide (a b : list C) : exn + list C := binop Cdiv a b.
Definition add (a b : list R) : exn + list R := binop Rplus a b.
Definition abs (a : list C) : list R := map Cabs a.
Definition square (a : list R) : list R := map (fun r => (r ^ 2)%R) a.
Definition sum (a : list R) : R := fold_right Rplus 0%R a.
Definition mean (a : list R) : R := (sum a / INR (length a))%R.
Definition real (a : list C) : list R := map fst a.

(** [np.max]: raises on an empty array. *)
Definition max (a : list R) : exn + R :=
  match a with
  | [] => inl ValueError
  | v :: t => inr (fold_left Rmax t v)
  end.

(** [np.sum(a, axis=1)] *)
Definition sum_axis1 (a : Np.array2 R) : list R := map sum a.

(** [dst[:] = src] *)
Definition assign_all (dst src : list R) : exn + list R :=
  if (length src =? length dst)%nat then inr src
  else if (length src =? 1)%nat then inr (map (fun _ => hd 0%R src) dst)
  else inl ValueError.

End Npa.

(* ================================================================= *)
(** ** The wrapped libraries *)

(** The Python-side configuration of an [nlopt.opt] object. *)
Record Solver (W : Type) : Type := MkSolver {
  sv_algorithm : string;
  sv_n : nat;
  sv_lower_bounds : option (list R);
  sv_upper_bounds : option (list R);
  sv_max_objective :
    option (list R -> list R -> M W (list R * list R));
  sv_maxeval : nat;
  sv_xtol_rel : option Q
}.

(** Everything the notebook obtains from meep, meep.adjoint, autograd,
    matplotlib and nlopt.  Nothing is assumed about these operations:
    each may return any value, change the libraries' state, or raise. *)
Record Library (W Axes Patch : Type) : Type := MkLibrary {
  (* meep.adjoint *)
  get_conic_radius_from_eta_e : Q -> Q -> R;
  conic_filter : list R -> R -> Q -> Q -> Z -> op W (Np.array2 R);
  tanh_projection : Np.array2 R -> Z -> Q -> op W (Np.array2 R);
  (* opt = mpa.OptimizationProblem(...) *)
  opt_call : list (list R) -> bool -> op W (list C * Np.array2 R);
  opt_update_design : list (list R) -> op W unit;
  opt_plot2D : bool -> option Axes -> op W unit;
  opt_get_objective_arguments : op W (list C * list C * list C);
  (* autograd *)
  tensor_jacobian_product :
    (list R -> Q -> Z -> M W (list R)) -> nat ->
    op W (list R -> Q -> Z -> list R -> op W (list R));
  (* matplotlib *)
  plt_figure : op W unit;
  plt_gca : op W Axes;
  Circle : Q * Q -> Q -> op W Patch;
  ax_add_patch : Axes -> Patch -> op W unit;
  ax_axis : Axes -> string -> op W unit;
  plt_savefig : string -> Z -> Z -> op W unit;
  plt_show : op W unit;
  (* nlopt *)
  nlopt_opt : string -> nat -> op W unit;
  nlopt_set_lower_bounds : nat -> list R -> op W unit;
  nlopt_set_upper_bounds : nat -> list R -> op W unit;
  nlopt_set_max_objective : op W unit;
  nlopt_set_maxeval : nat -> op W unit;
  nlopt_set_xtol_rel : Q -> op W unit;
  nlopt_start : nat -> list R -> op W unit;
  nlopt_step : list R -> list R -> list R -> op W (option (list R));
  nlopt_result : op W (list R);
  (* the number of evaluations after which a run that has no evaluation
     limit ends by another criterion *)
  nlopt_unlimited : nat
}.

(* ================================================================= *)
(** ** The notebook's functions and cells *)

Definition algorithm : string := "LD_MMA".
Definition beta_scale : Z := 2.
Definition num_betas : nat := 6.
Definition update_factor : nat := 12.

Section Notebook.

Context {W Axes Patch : Type}.
Variable L : Library W Axes Patch.

Local Open Scope nb_scope.
Local Open Scope string_scope.

Definition filter_radius : R :=
  get_conic_radius_from_eta_e L minimum_length eta_e.

(** Cell 9. *)
Definition mapping (x : list R) (eta : Q) (beta : Z) : M W (list R) :=
  filtered_field <-
    call "mpa.conic_filter"
      (conic_filter L x filter_radius design_region_width
         design_region_height design_region_resolution) ;;
  projected_field <-
    call "mpa.tanh_projection"
      (tanh_projection L filtered_field beta eta) ;;
  call_pure "ndarray.flatten" (inr (Np.flatten projected_field)).

(** Cell 15. *)
Definition J (source top bottom : list C) : M W R :=
  qt <- call_pure "npa.divide" (Npa.divide top source) ;;
  at_ <- call_pure "npa.abs" (inr (Npa.abs qt)) ;;
  pt <- call_pure "npa.power" (inr (Npa.square at_)) ;;
  qb <- call_pure "npa.divide" (Npa.divide bottom source) ;;
  ab <- call_pure "npa.abs" (inr (Npa.abs qb)) ;;
  pb <- call_pure "npa.power" (inr (Npa.square ab)) ;;
  power <- call_pure "npa.add" (Npa.add pt pb) ;;
  call_pure "npa.mean" (inr (Npa.mean power)).

(** [cur_iter[0]] and [cur_iter[0] = k] on the Python list. *)
Definition get_cur_iter_0 : M W Z :=
  c <- read cur_iter ;;
  match c with
  | [] => raise IndexError
  | k :: _ => ret k
  end.

Definition set_cur_iter_0 (k : Z) : M W unit :=
  c <- read cur_iter ;;
  match c with
  | [] => raise IndexError
  | _ :: rest => write (set_cur_iter (k :: rest))
  end.

(** Cell 19.  The callback receives the array [gradient] and fills it
    in place; here the filled array is returned next to the value. *)
Definition f (v gradient : list R) (beta : Z)
  : M W (list R * list R) :=
  k <- get_cur_iter_0 ;;
  print (CurrentIteration (k + 1)) ;;
  m <- mapping v eta_i beta ;;
  '(f0, dJ_du) <- call "opt" (opt_call L [m] true) ;;
  call "plt.figure" (plt_figure L) ;;
  ax <- call "plt.gca" (plt_gca L) ;;
  call "opt.plot2D" (opt_plot2D L false (Some ax)) ;;
  circ <- call "Circle" (Circle L (2, 2) (minimum_length / 2)) ;;
  call "ax.add_patch" (ax_add_patch L ax circ) ;;
  call "ax.axis" (ax_axis L ax "off") ;;
  k1 <- get_cur_iter_0 ;;
  call "plt.savefig" (plt_savefig L "media/splitter_{:03d}.png" k1 300) ;;
  call "plt.show" (plt_show L) ;;
  gradient' <-
    (if (0 <? length gradient)%nat then
       tjp <- call "tensor_jacobian_product"
                (tensor_jacobian_product L mapping 0) ;;
       d <- call_pure "np.sum" (inr (Npa.sum_axis1 dJ_du)) ;;
       g <- call "tensor_jacobian_product(mapping, 0)"
              (tjp v eta_i beta d) ;;
       call_pure "ndarray.__setitem__" (Npa.assign_all gradient g)
     else ret gradient) ;;
  r <- call_pure "np.real" (inr (Npa.real f0)) ;;
  h <- call_pure "np.max" (Npa.max r) ;;
  write (fun g => set_evaluation_history (evaluation_history g ++ [h]) g) ;;
  k2 <- get_cur_iter_0 ;;
  set_cur_iter_0 (k2 + 1) ;;
  r' <- call_pure "np.real" (inr (Npa.real f0)) ;;
  ret (r', gradient').

(** *** nlopt

    [nlopt.opt(algorithm, n)] and its setters: each call may be
    rejected by the library; otherwise it records the setting. *)
Definition nlopt_new (alg : string) (dim : nat) : M W (Solver W) :=
  call "nlopt.opt" (nlopt_opt L alg dim) ;;
  ret (MkSolver alg dim None None None 0 None).

Definition set_lower_bounds (sv : Solver W) (b : list R)
  : M W (Solver W) :=
  call "nlopt.opt.set_lower_bounds" (nlopt_set_lower_bounds L (sv_n sv) b) ;;
  ret (MkSolver (sv_algorithm sv) (sv_n sv) (Some b) (sv_upper_bounds sv)
         (sv_max_objective sv) (sv_maxeval sv) (sv_xtol_rel sv)).

Definition set_upper_bounds (sv : Solver W) (b : list R)
  : M W (Solver W) :=
  call "nlopt.opt.set_upper_bounds" (nlopt_set_upper_bounds L (sv_n sv) b) ;;
  ret (MkSolver (sv_algorithm sv) (sv_n sv) (sv_lower_bounds sv) (Some b)
         (sv_max_objective sv) (sv_maxeval sv) (sv_xtol_rel sv)).

Definition set_max_objective (sv : Solver W)
           (obj : list R -> list R -> M W (list R * list R))
  : M W (Solver W) :=
  call "nlopt.opt.set_max_objective" (nlopt_set_max_objective L) ;;
  ret (MkSolver (sv_algorithm sv) (sv_n sv) (sv_lower_bounds sv)
         (sv_upper_bounds sv) (Some obj) (sv_maxeval sv) (sv_xtol_rel sv)).

Definition set_maxeval (sv : Solver W) (k : nat) : M W (Solver W) :=
  call "nlopt.opt.set_maxeval" (nlopt_set_maxeval L k) ;;
  ret (MkSolver (sv_algorithm sv) (sv_n sv) (sv_lower_bounds sv)
         (sv_upper_bounds sv) (sv_max_objective sv) k (sv_xtol_rel sv)).

Definition set_xtol_rel (sv : Solver W) (tol : Q) : M W (Solver W) :=
  call "nlopt.opt.set_xtol_rel" (nlopt_set_xtol_rel L tol) ;;
  ret (MkSolver (sv_algorithm sv) (sv_n sv) (sv_lower_bounds sv)
         (sv_upper_bounds sv) (sv_max_objective sv) (sv_maxeval sv)
         (Some tol)).

(** The [maxeval] stopping criterion.  A positive [maxeval] ends a run
    when that many evaluations have been made; [maxeval = 0], the value
    of an optimizer on which [set_maxeval] was not called, is no limit:
    such a run ends only by the library's other criteria, after a
    number of evaluations that is the library's. *)
Definition evaluation_limit (sv : Solver W) : nat :=
  if (sv_maxeval sv =? 0)%nat then nlopt_unlimited L else sv_maxeval sv.

(** [solver.optimize(x)]: the library evaluates the objective at a
    point, then either proposes the next point or stops; it stops at
    the latest when the evaluation limit is reached.  The objective is
    handed a gradient array of the problem's dimension (the algorithm
    is gradient based). *)
Fixpoint nlopt_iterate (evals_left : nat)
         (obj : list R -> list R -> M W (list R * list R))
         (dim : nat) (x : list R) : M W (list R) :=
  match evals_left with
  | O => call "nlopt.opt.optimize.result" (nlopt_result L)
  | S evals_left' =>
      '(val, grad) <- obj x (repeat 0%R dim) ;;
      next <- call "nlopt.opt.optimize.step" (nlopt_step L x val grad) ;;
      match next with
      | None => call "nlopt.opt.optimize.result" (nlopt_result L)
      | Some x' => nlopt_iterate evals_left' obj dim x'
      end
  end.

Definition optimize (sv : Solver W) (x : list R) : M W (list R) :=
  call "nlopt.opt.optimize" (nlopt_start L (sv_n sv) x) ;;
  match sv_max_objective sv with
  | None => call "nlopt.opt.optimize.result" (nlopt_result L)
  | Some obj => nlopt_iterate (evaluation_limit sv) obj (sv_n sv) x
  end.

(** *** Cell 21 *)

(** [lambda a, g: f(a, g, cur_beta)]: the global [cur_beta] is looked
    up when the lambda is called. *)
Definition objective (a g : list R) : M W (list R * list R) :=
  b <- read cur_beta ;;
  f a g b.

(** The optimizer part of the loop body, for a given objective. *)
Definition run_solver (obj : list R -> list R -> M W (list R * list R))
  : M W unit :=
  solver <- nlopt_new algorithm n ;;
  solver <- set_lower_bounds solver (map Q2R lb) ;;
  solver <- set_upper_bounds solver (map Q2R ub) ;;
  solver <- set_max_objective solver obj ;;
  solver <- set_maxeval solver update_factor ;;
  solver <- set_xtol_rel solver 0.0001 ;;
  x0 <- read x_var ;;
  xopt <- optimize solver x0 ;;
  x1 <- read x_var ;;
  x2 <- call_pure "ndarray.__setitem__" (Npa.assign_all x1 xopt) ;;
  write (set_x_var x2).

(** The body of [for iters in range(num_betas)]. *)
Definition loop_body (iters : nat) : M W unit :=
  b <- read cur_beta ;;
  print (CurrentBeta b) ;;
  run_solver objective ;;
  b1 <- read cur_beta ;;
  write (set_cur_beta (b1 * beta_scale)).

Fixpoint for_each {A : Type} (items : list A) (body : A -> M W unit)
  : M W unit :=
  match items with
  | [] => ret tt
  | i :: rest => body i ;; for_each rest body
  end.

Definition cell_21 : M W unit :=
  write (set_x_var (map Q2R x_init)) ;;
  write (set_cur_beta 4) ;;
  for_each (seq 0 num_betas) loop_body.

(** *** Cells 25 and 28: final evaluation and final design *)

(** The expression [mapping(x, eta_i, cur_beta)] of both cells. *)
Definition mapped_design : M W (list R) :=
  xv <- read x_var ;;
  b <- read cur_beta ;;
  mapping xv eta_i b.

Definition cell_25 : M W (list R * list R) :=
  m <- mapped_design ;;
  '(f0, dJ_du) <- call "opt" (opt_call L [m] false) ;;
  '(source_coef, top_coef, bottom_ceof) <-
    call "opt.get_objective_arguments" (opt_get_objective_arguments L) ;;
  qt <- call_pure "np.divide" (Npa.divide top_coef source_coef) ;;
  at_ <- call_pure "np.abs" (inr (Npa.abs qt)) ;;
  top_profile <- call_pure "np.power" (inr (Npa.square at_)) ;;
  qb <- call_pure "np.divide" (Npa.divide bottom_ceof source_coef) ;;
  ab <- call_pure "np.abs" (inr (Npa.abs qb)) ;;
  bottom_profile <- call_pure "np.power" (inr (Npa.square ab)) ;;
  ret (top_profile, bottom_profile).

Definition cell_28 : M W unit :=
  m <- mapped_design ;;
  call "opt.update_design" (opt_update_design L [m]) ;;
  call "plt.figure" (plt_figure L) ;;
  ax <- call "plt.gca" (plt_gca L) ;;
  call "opt.plot2D" (opt_plot2D L false (Some ax)) ;;
  circ <- call "Circle" (Circle L (2, 2) (minimum_length / 2)) ;;
  call "ax.add_patch" (ax_add_patch L ax circ) ;;
  call "ax.axis" (ax_axis L ax "off") ;;
  call "plt.show" (plt_show L).

End Notebook.

(* ================================================================= *)
(** ** The properties, phrased over the model *)

(** *** Masks, point by point *)

Definition on_left_edge (x : Q) : Prop := x == - design_region_width / 2.
Definition on_right_edge (x : Q) : Prop := x == design_region_width / 2.
Definition on_bottom_edge (y : Q) : Prop := y == - design_region_height / 2.
Definition on_top_edge (y : Q) : Prop := y == design_region_height / 2.

(** [y] lies within [waveguide_width / 2] of [c]. *)
Definition within_waveguide (c y : Q) : Prop :=
  Qabs (y - c) <= waveguide_width / 2.

(** The value of the masks at a point of coordinates [(x, y)]. *)
Definition Si_at (x y : Q) : bool :=
  Qeq_bool x (- design_region_width / 2)
    && Qle_bool (Qabs y) (waveguide_width / 2)
  || Qeq_bool x (design_region_width / 2)
    && Qle_bool (Qabs (y + arm_separation / 2)) (waveguide_width / 2)
  || Qeq_bool x (design_region_width / 2)
    && Qle_bool (Qabs (y - arm_separation / 2)) (waveguide_width / 2).

Definition border_at (x y : Q) : bool :=
  Qeq_bool x (- design_region_width / 2)
  || Qeq_bool x (design_region_width / 2)
  || Qeq_bool y (- design_region_height / 2)
  || Qeq_bool y (design_region_height / 2).

(** The (Nx,Ny) array whose entry [(i, j)] is [p xs[i] ys[j]]. *)
Definition outer {A : Type} (p : Q -> Q -> A) (xs ys : list Q)
  : Np.array2 A :=
  map (fun x => map (p x) ys) xs.

(** [v] stays clear of the threshold [t] of a comparison by more than
    the rounding of double-precision arithmetic could bridge. *)
Definition margin : Q := 0.001.
Definition clear_of (t v : Q) : bool := Qle_bool margin (Qabs (v - t)).

(** An array of [nx] rows of [ny] entries. *)
Definition has_shape {A : Type} (a : Np.array2 A) (nx ny : nat) : Prop :=
  length a = nx /\ Forall (fun row => length row = ny) a.

(** *** The objective, frequency by frequency *)

Definition splitting_power (s t b : C) : R :=
  (Cnorm2 (Cdiv t s) + Cnorm2 (Cdiv b s))%R.

Fixpoint per_frequency (source top bottom : list C) : list R :=
  match source, top, bottom with
  | s :: source', t :: top', b :: bottom' =>
      splitting_power s t b :: per_frequency source' top' bottom'
  | _, _, _ => []
  end.

(** The arithmetic mean over the frequencies. *)
Definition J_mean (source top bottom : list C) : R :=
  (fold_right Rplus 0 (per_frequency source top bottom)
   / INR (length source))%R.

(** *** Printed output *)

Definition is_iteration_line (l : line) : bool :=
  match l with CurrentIteration _ => true | CurrentBeta _ => false end.
Definition is_beta_line (l : line) : bool :=
  match l with CurrentBeta _ => true | CurrentIteration _ => false end.

Definition iteration_lines (out : list line) : nat :=
  length (filter is_iteration_line out).
Definition beta_lines (out : list line) : nat :=
  length (filter is_beta_line out).

(** The sharpness of round [k] according to the schedule. *)
Definition beta_of_round (k : nat) : Z := 4 * 2 ^ Z.of_nat k.

(** *** Library calls and exceptions *)

Definition returned (o : outcome) : Prop :=
  match o with Returned _ => True | Raised _ _ => False end.

Section Statements.

Context {W Axes Patch : Type}.
Variable L : Library W Axes Patch.

Local Open Scope nb_scope.
Local Open Scope string_scope.

(** A run in which nothing is caught, retried or made up: either all
    library calls returned and so did the computation, or the last
    library call made is the one that raised, and its exception is
    the computation's. *)
Definition propagates {A : Type} (r : run W A) : Prop :=
  match result r with
  | Ok _ => Forall returned (trace r)
  | Raise e =>
      exists fn before,
        trace r = (before ++ [Raised fn e])%list /\ Forall returned before
  end.

(** A run that evaluates the callback at most [k] times (each
    evaluation prints one iteration line), prints no beta line and
    leaves [cur_beta] alone. *)
Definition evaluates_at_most (k : nat) (s : state W) {A : Type}
           (r : run W A) : Prop :=
  cur_beta (vars (final r)) = cur_beta (vars s)
  /\ (cur_iter (vars s) <> [] -> cur_iter (vars (final r)) <> [])
  /\ exists out,
       stdout (vars (final r)) = (stdout (vars s) ++ out)%list
       /\ (iteration_lines out <= k)%nat /\ beta_lines out = 0%nat.

(** Filter, then project, then flatten. *)
Definition filter_stage (x : list R) : M W (Np.array2 R) :=
  call "mpa.conic_filter"
    (conic_filter L x (filter_radius L) design_region_width
       design_region_height design_region_resolution).

Definition project_stage (eta : Q) (beta : Z) (a : Np.array2 R)
  : M W (Np.array2 R) :=
  call "mpa.tanh_projection" (tanh_projection L a beta eta).

Definition flatten_stage (a : Np.array2 R) : M W (list R) :=
  call_pure "ndarray.flatten" (inr (Np.flatten a)).

Definition and_then {A B X : Type} (f1 : A -> M W B) (f2 : B -> M W X)
  : A -> M W X :=
  fun a => bind (f1 a) f2.

Definition filter_project_flatten (x : list R) (eta : Q) (beta : Z)
  : M W (list R) :=
  and_then filter_stage (and_then (project_stage eta beta) flatten_stage) x.

(** One round of the loop with the sharpness given explicitly. *)
Definition round_at (b : Z) : M W unit :=
  print (CurrentBeta b) ;;
  run_solver L (fun a g => f L a g b) ;;
  write (set_cur_beta (b * beta_scale)).

Definition cell_21_schedule : M W unit :=
  write (set_x_var (map Q2R x_init)) ;;
  write (set_cur_beta 4) ;;
  for_each (seq 0 num_betas) (fun k => round_at (beta_of_round k)).

(** [mapping(x, eta_i, b)] for an explicit sharpness [b]. *)
Definition mapped_design_at (b : Z) : M W (list R) :=
  xv <- read x_var ;;
  mapping L xv eta_i b.

(** The optimizer of a round as [optimize] finds it: algorithm [LD_MMA]
    on [n] variables, the two bounds, the objective to maximise, at
    most [update_factor] evaluations, relative tolerance 1e-4. *)
Definition round_solver (obj : list R -> list R -> M W (list R * list R))
  : Solver W :=
  MkSolver algorithm n (Some (map Q2R lb)) (Some (map Q2R ub)) (Some obj)
    update_factor (Some 0.0001).

(** The library calls that construct and configure it. *)
Definition construct_solver : M W unit :=
  call "nlopt.opt" (nlopt_opt L algorithm n) ;;
  call "nlopt.opt.set_lower_bounds" (nlopt_set_lower_bounds L n (map Q2R lb)) ;;
  call "nlopt.opt.set_upper_bounds" (nlopt_set_upper_bounds L n (map Q2R ub)) ;;
  call "nlopt.opt.set_max_objective" (nlopt_set_max_objective L) ;;
  call "nlopt.opt.set_maxeval" (nlopt_set_maxeval L update_factor) ;;
  call "nlopt.opt.set_xtol_rel" (nlopt_set_xtol_rel L 0.0001).

(** [x[:] = solver.optimize(x)] for the optimizer [sv]. *)
Definition optimize_in_place (sv : Solver W) : M W unit :=
  x0 <- read x_var ;;
  xopt <- optimize L sv x0 ;;
  x1 <- read x_var ;;
  x2 <- call_pure "ndarray.__setitem__" (Npa.assign_all x1 xopt) ;;
  write (set_x_var x2).

(** One round of the loop at sharpness [b]: a new optimizer, limited to
    [update_factor] evaluations of [f(., ., b)], is run on [x]. *)
Definition limited_round (b : Z) : M W unit :=
  print (CurrentBeta b) ;;
  construct_solver ;;
  optimize_in_place (round_solver (fun a g => f L a g b)) ;;
  write (set_cur_beta (b * beta_scale)).

(** The libraries filter [x] and project the result with sharpness [b]
    and threshold [eta_i], from the library state [w]: [design] is the
    flattened outcome and [w'] the state reached. *)
Definition maps_at (b : Z) (x : list R) (w : W) (design : list R) (w' : W)
  : Prop :=
  exists filtered projected w1,
    conic_filter L x (filter_radius L) design_region_width
      design_region_height design_region_resolution w = (inr filtered, w1)
    /\ tanh_projection L filtered b eta_i w1 = (inr projected, w')
    /\ design = Np.flatten projected.

(** Cells 25 and 28 with the sharpness given explicitly. *)
Definition cell_25_at (b : Z) : M W (list R * list R) :=
  m <- mapped_design_at b ;;
  '(f0, dJ_du) <- call "opt" (opt_call L [m] false) ;;
  '(source_coef, top_coef, bottom_ceof) <-
    call "opt.get_objective_arguments" (opt_get_objective_arguments L) ;;
  qt <- call_pure "np.divide" (Npa.divide top_coef source_coef) ;;
  at_ <- call_pure "np.abs" (inr (Npa.abs qt)) ;;
  top_profile <- call_pure "np.power" (inr (Npa.square at_)) ;;
  qb <- call_pure "np.divide" (Npa.divide bottom_ceof source_coef) ;;
  ab <- call_pure "np.abs" (inr (Npa.abs qb)) ;;
  bottom_profile <- call_pure "np.power" (inr (Npa.square ab)) ;;
  ret (top_profile, bottom_profile).

Definition cell_28_at (b : Z) : M W unit :=
  m <- mapped_design_at b ;;
  call "opt.update_design" (opt_update_design L [m]) ;;
  call "plt.figure" (plt_figure L) ;;
  ax <- call "plt.gca" (plt_gca L) ;;
  call "opt.plot2D" (opt_plot2D L false (Some ax)) ;;
  circ <- call "Circle" (Circle L (2, 2) (minimum_length / 2)) ;;
  call "ax.add_patch" (ax_add_patch L ax circ) ;;
  call "ax.axis" (ax_axis L ax "off") ;;
  call "plt.show" (plt_show L).

End Statements.

(* ================================================================= *)
(** ** A small concrete library, to run the model on *)

Module Demo.

Local Open Scope R_scope.

(** The libraries' state counts the objective evaluations asked of
    the simulator. *)
Definition world : Type := nat.

Definition ok {X : Type} (v : X) : op world X := fun w => (inr v, w).

Definition lib : Library world unit unit :=
  {| get_conic_radius_from_eta_e := fun _ _ => 1;
     conic_filter := fun x _ _ _ _ => ok [x];
     tanh_projection := fun a _ _ => ok a;
     opt_call := fun _ _ w => (inr ([(1, 0); (2, 0)], [[0]]), S w);
     opt_update_design := fun _ => ok tt;
     opt_plot2D := fun _ _ => ok tt;
     opt_get_objective_arguments := ok ([(1, 0)], [(1, 0)], [(0, 1)]);
     tensor_jacobian_product :=
       fun _ _ => ok (fun _ _ _ d => ok d);
     plt_figure := ok tt;
     plt_gca := ok tt;
     Circle := fun _ _ => ok tt;
     ax_add_patch := fun _ _ => ok tt;
     ax_axis := fun _ _ => ok tt;
     plt_savefig := fun _ _ _ => ok tt;
     plt_show := ok tt;
     nlopt_opt := fun _ _ => ok tt;
     nlopt_set_lower_bounds := fun _ _ => ok tt;
     nlopt_set_upper_bounds := fun _ _ => ok tt;
     nlopt_set_max_objective := ok tt;
     nlopt_set_maxeval := fun _ => ok tt;
     nlopt_set_xtol_rel := fun _ => ok tt;
     nlopt_start := fun _ _ => ok tt;
     nlopt_step := fun x _ _ => ok (Some x);
     nlopt_result := ok [0];
     nlopt_unlimited := 20 |}.

(** The simulator fails on its third evaluation. *)
Definition failing_lib : Library world unit unit :=
  {| get_conic_radius_from_eta_e := get_conic_radius_from_eta_e lib;
     conic_filter := conic_filter lib;
     tanh_projection := tanh_projection lib;
     opt_call := fun d g w =>
       if (2 <=? w)%nat then (inl (Exn "RuntimeError"), w)
       else opt_call lib d g w;
     opt_update_design := opt_update_design lib;
     opt_plot2D := opt_plot2D lib;
     opt_get_objective_arguments := opt_get_objective_arguments lib;
     tensor_jacobian_product := tensor_jacobian_product lib;
     plt_figure := plt_figure lib;
     plt_gca := plt_gca lib;
     Circle := Circle lib;
     ax_add_patch := ax_add_patch lib;
     ax_axis := ax_axis lib;
     plt_savefig := plt_savefig lib;
     plt_show := plt_show lib;
     nlopt_opt := nlopt_opt lib;
     nlopt_set_lower_bounds := nlopt_set_lower_bounds lib;
     nlopt_set_upper_bounds := nlopt_set_upper_bounds lib;
     nlopt_set_max_objective := nlopt_set_max_objective lib;
     nlopt_set_maxeval := nlopt_set_maxeval lib;
     nlopt_set_xtol_rel := nlopt_set_xtol_rel lib;
     nlopt_start := nlopt_start lib;
     nlopt_step := nlopt_step lib;
     nlopt_result := nlopt_result lib;
     nlopt_unlimited := nlopt_unlimited lib |}.

(** The state after cell 19: [evaluation_history = []],
    [cur_iter = [0]]. *)
Definition start : state world :=
  State 0%nat (Globals [] [0%Z] 0%Z [] []).

End Demo.

(* ================================================================= *)
(** ** Simulation domain and geometry (cells 5 and 13) *)

Definition Sx : Q := 2 * pml_size + 2 * waveguide_length + design_region_width.
Definition Sy : Q := 2 * pml_size + design_region_height + 0.5.

(** [mp.Vector3(x, y, z)], every component defaulting to 0. *)
Record Vector3 : Type := MkVector3 { v_x : Q; v_y : Q; v_z : Q }.

Inductive medium : Type :=
| Si
| SiO2
| design_variables.

(** [mp.Block(center, size, material, e2)]; [e2] defaults to the y axis. *)
Record Block : Type := MkBlock {
  b_center : Vector3;
  b_material : medium;
  b_size : Vector3;
  b_e2 : Vector3
}.

Definition e2_default : Vector3 := MkVector3 0 1 0.

(** The centre and size of [design_region]. *)
Definition design_region_center : Vector3 := MkVector3 0 0 0.
Definition design_region_size : Vector3 :=
  MkVector3 design_region_width design_region_height 0.

Definition geometry : list Block :=
  [ MkBlock (MkVector3 (- Sx / 4) 0 0) Si
      (MkVector3 (Sx / 2 + 1) waveguide_width 0) e2_default;
    MkBlock (MkVector3 (Sx / 4) (arm_separation / 2) 0) Si
      (MkVector3 (Sx / 2 + 1) waveguide_width 0) e2_default;
    MkBlock (MkVector3 (Sx / 4) (- arm_separation / 2) 0) Si
      (MkVector3 (Sx / 2 + 1) waveguide_width 0) e2_default;
    MkBlock design_region_center design_variables design_region_size
      e2_default;
    MkBlock design_region_center design_variables design_region_size
      (MkVector3 0 (-1) 0) ].

(** The point [(x, y)] of the simulation plane lies in the block: an
    axis-aligned box extends half its size on either side of its
    centre (reversing [e2] does not change the box). *)
Definition block_contains (b : Block) (x y : Q) : bool :=
  Qle_bool (Qabs (x - v_x (b_center b))) (v_x (b_size b) / 2)
  && Qle_bool (Qabs (y - v_y (b_center b))) (v_y (b_size b) / 2).

Definition is_silicon (b : Block) : bool :=
  match b_material b with Si => true | _ => false end.

(** The point lies in one of the silicon waveguides of [geometry]. *)
Definition in_waveguide (x y : Q) : bool :=
  existsb (fun b => is_silicon b && block_contains b x y) geometry.

(* ================================================================= *)
(** ** Further notions used by the properties below *)

(** [|t/s|^2] entry by entry, for arrays of the same length. *)
Definition ratio_profile (coef source : list C) : list R :=
  Np.zip_with (fun t s => Cnorm2 (Cdiv t s)) coef source.

(** Library function [fn] was called in the trace. *)
Definition called (fn : string) (o : outcome) : bool :=
  match o with
  | Returned fn' => String.eqb fn fn'
  | Raised fn' _ => String.eqb fn fn'
  end.

Definition was_called (fn : string) (tr : list outcome) : bool :=
  existsb (called fn) tr.

(** The iteration lines numbered [k+1 .. k+j]. *)
Definition iteration_numbers (k : Z) (j : nat) : list line :=
  map (fun i => CurrentIteration (k + 1 + Z.of_nat i)) (seq 0 j).

Section Invariants.

Context {W : Type}.

(** Cell 19, before [f] is defined. *)
Definition cell_19 : M W unit :=
  bind (write (set_evaluation_history [])) (fun _ => write (set_cur_iter [0%Z])).

(** The counter and the history move together: a run that makes [j]
    complete evaluations adds [j] to [cur_iter[0]], appends [j] values
    and prints the iteration lines [k+1 .. k+j] (and also [k+j+1] when
    an evaluation was cut short by an exception). *)
Definition counted (s : state W) {A : Type} (r : run W A) : Prop :=
  forall k rest,
    cur_iter (vars s) = k :: rest ->
    exists (j : nat) (more : list R) (out : list line),
      cur_iter (vars (final r)) = (k + Z.of_nat j)%Z :: rest
      /\ evaluation_history (vars (final r))
         = evaluation_history (vars s) ++ more
      /\ length more = j
      /\ stdout (vars (final r)) = stdout (vars s) ++ out
      /\ (filter is_iteration_line out = iteration_numbers k j
          \/ ((exists e, result r = Raise e)
              /\ filter is_iteration_line out = iteration_numbers k (S j))).

(** The design vector keeps its length. *)
Definition keeps_x_length (s : state W) {A : Type} (r : run W A) : Prop :=
  length (x_var (vars (final r))) = length (x_var (vars s)).

(** Errors are propagated, as long as [cur_iter] is a non-empty list. *)
Definition propagates_from (s : state W) {A : Type} (r : run W A) : Prop :=
  cur_iter (vars s) <> [] ->
  propagates r /\ cur_iter (vars (final r)) <> [].

End Invariants.

(* ================================================================= *)
(** * Proofs *)

(** ** Arrays *)

Module NpFacts.
Import Np.

(** Linear arithmetic over [Q]. *)
Ltac qlra := Lqa.lra.

Lemma zip_with_map {A B X Y : Type} (f : A -> B -> X)
      (p : Y -> A) (q : Y -> B) (l : list Y) :
  zip_with f (map p l) (map q l) = map (fun y => f (p y) (q y)) l.
Proof.
  induction l as [|y l IH]; simpl; [reflexivity | now rewrite IH].
Qed.

Lemma bcast_map {A B X Y : Type} (f : A -> B -> X)
      (p : Y -> A) (q : Y -> B) (l : list Y) :
  bcast f (map p l) (map q l) = map (fun y => f (p y) (q y)) l.
Proof.
  destruct l as [|y1 [|y2 l]]; try reflexivity.
  unfold bcast. change (map p (y1 :: y2 :: l)) with (p y1 :: p y2 :: map p l).
  change (map q (y1 :: y2 :: l)) with (q y1 :: q y2 :: map q l).
  simpl. now rewrite zip_with_map.
Qed.

(** (Nx,1) against (1,Ny). *)
Lemma bcast2_col_row {A B X : Type} (f : A -> B -> X)
      (g : Q -> A) (h : Q -> B) (xs ys : list Q) :
  bcast2 f (map (fun x => [g x]) xs) [map h ys]
  = outer (fun x y => f (g x) (h y)) xs ys.
Proof.
  unfold bcast2, outer.
  destruct xs as [|x1 [|x2 xs]]; simpl; try reflexivity.
  - destruct ys as [|y1 [|y2 ys]]; simpl; try reflexivity.
    now rewrite map_map.
  - f_equal; [|f_equal].
    + now rewrite map_map.
    + now rewrite map_map.
    + rewrite map_map. apply map_ext. intro x. simpl. now rewrite map_map.
Qed.

(** (Nx,1) against (Nx,1). *)
Lemma bcast2_col_col {A B X : Type} (f : A -> B -> X)
      (g : Q -> A) (h : Q -> B) (xs : list Q) :
  bcast2 f (map (fun x => [g x]) xs) (map (fun x => [h x]) xs)
  = map (fun x => [f (g x) (h x)]) xs.
Proof.
  unfold bcast2. rewrite bcast_map. reflexivity.
Qed.

(** (Nx,Ny) against (Nx,Ny). *)
Lemma bcast2_outer {A B X : Type} (f : A -> B -> X)
      (p : Q -> Q -> A) (q : Q -> Q -> B) (xs ys : list Q) :
  bcast2 f (outer p xs ys) (outer q xs ys)
  = outer (fun x y => f (p x y) (q x y)) xs ys.
Proof.
  unfold bcast2, outer. rewrite bcast_map.
  apply map_ext. intro x. apply bcast_map.
Qed.

(** (Nx,Ny) against (1,Ny). *)
Lemma bcast2_outer_row {A B X : Type} (f : A -> B -> X)
      (p : Q -> Q -> A) (h : Q -> B) (xs ys : list Q) :
  bcast2 f (outer p xs ys) [map h ys]
  = outer (fun x y => f (p x y) (h y)) xs ys.
Proof.
  unfold bcast2, outer.
  destruct xs as [|x1 [|x2 xs]]; simpl; try reflexivity.
  - now rewrite bcast_map.
  - rewrite !bcast_map. f_equal. f_equal.
    rewrite map_map. apply map_ext. intro x. apply bcast_map.
Qed.

Lemma mask_assign2_outer (p q : Q -> Q -> bool) (v : bool)
      (xs ys : list Q) :
  mask_assign2 (outer p xs ys) (outer q xs ys) v
  = outer (fun x y => if q x y then v else p x y) xs ys.
Proof.
  unfold mask_assign2, mask_assign, outer. rewrite zip_with_map.
  apply map_ext. intro x. apply zip_with_map.
Qed.

Lemma nth_map_lt {A B : Type} (g : A -> B) (l : list A) (i : nat)
      (d : B) (d' : A) :
  (i < length l)%nat -> nth i (map g l) d = g (nth i l d').
Proof.
  revert i. induction l as [|a l IH]; intros [|i] Hi; simpl in *;
    try lia; [reflexivity | apply IH; lia].
Qed.

Lemma get2_outer {A : Type} (p : Q -> Q -> A) (xs ys : list Q)
      (i j : nat) (d : A) :
  (i < length xs)%nat -> (j < length ys)%nat ->
  get2 (outer p xs ys) i j d = p (nth i xs 0) (nth j ys 0).
Proof.
  intros Hi Hj. unfold get2, outer.
  rewrite (nth_map_lt _ _ _ 0 Hi).
  apply nth_map_lt. exact Hj.
Qed.

Lemma flatten_outer {A : Type} (p : Q -> Q -> A) (xs ys : list Q) :
  flatten (outer p xs ys)
  = map (fun pt => p (fst pt) (snd pt)) (list_prod xs ys).
Proof.
  unfold flatten, outer.
  induction xs as [|x xs IH]; simpl; [reflexivity|].
  rewrite IH, map_app, map_map. reflexivity.
Qed.

Lemma nth_zip_with {A B X : Type} (f : A -> B -> X)
      (a : list A) (b : list B) (i : nat) (da : A) (db : B) (d : X) :
  (i < length a)%nat -> (i < length b)%nat ->
  nth i (zip_with f a b) d = f (nth i a da) (nth i b db).
Proof.
  revert b i. induction a as [|x a IH]; intros [|y b] [|i] Ha Hb;
    simpl in *; try lia; [reflexivity | apply IH; lia].
Qed.

Lemma length_zip_with {A B X : Type} (f : A -> B -> X)
      (a : list A) (b : list B) :
  length (zip_with f a b) = Nat.min (length a) (length b).
Proof.
  revert b. induction a as [|x a IH]; intros [|y b]; simpl; auto.
Qed.

Lemma length_linspace (a b : Q) (k : nat) : length (linspace a b k) = k.
Proof.
  destruct k as [|[|k]]; simpl; try reflexivity.
  rewrite length_app, length_map, length_seq. simpl. lia.
Qed.

(** The samples before the last one. *)
Lemma nth_linspace_inner (a b : Q) (d i : nat) :
  (i < S d)%nat ->
  nth i (linspace a b (S (S d))) 0
  = inject_Z (Z.of_nat i) * ((b - a) / inject_Z (Z.of_nat (S d))) + a.
Proof.
  intro Hi. unfold linspace.
  rewrite app_nth1 by (rewrite length_map, length_seq; exact Hi).
  rewrite (nth_map_lt _ _ _ 0%nat) by (rewrite length_seq; exact Hi).
  rewrite seq_nth by exact Hi. reflexivity.
Qed.

Lemma nth_linspace_last (a b : Q) (d : nat) :
  nth (S d) (linspace a b (S (S d))) 0 = b.
Proof.
  unfold linspace.
  rewrite app_nth2 by (rewrite length_map, length_seq; lia).
  rewrite length_map, length_seq, Nat.sub_diag. reflexivity.
Qed.

(** With at least two samples of a non-degenerate interval, only the
    first sample is [start] and only the last one is [stop]. *)
Lemma linspace_start_iff (a b : Q) (k i : nat) :
  a < b -> (2 <= k)%nat -> (i < k)%nat ->
  (nth i (linspace a b k) 0 == a <-> i = 0%nat).
Proof.
  intros Hab Hk Hi. destruct k as [|[|d]]; try lia.
  assert (Hd : 0 < inject_Z (Z.of_nat (S d)))
    by (change 0 with (inject_Z 0); rewrite <- Zlt_Qlt; lia).
  assert (Hstep : 0 < (b - a) / inject_Z (Z.of_nat (S d))).
  { apply Qlt_shift_div_l; [exact Hd | rewrite Qmult_0_l; qlra]. }
  destruct (Nat.eq_dec i (S d)) as [->|Hne].
  - rewrite nth_linspace_last. split; [intro H; qlra | discriminate].
  - rewrite nth_linspace_inner by lia.
    set (step := (b - a) / inject_Z (Z.of_nat (S d))) in *.
    destruct i as [|i].
    + split; [reflexivity | intros _].
      change (inject_Z (Z.of_nat 0)) with 0. qlra.
    + split; [|discriminate]. intro H. exfalso.
      assert (Hi1 : 0 < inject_Z (Z.of_nat (S i)))
        by (change 0 with (inject_Z 0); rewrite <- Zlt_Qlt; lia).
      pose proof (Qmult_lt_0_compat _ _ Hi1 Hstep) as Hpos.
      set (t := inject_Z (Z.of_nat (S i)) * step) in *. qlra.
Qed.

Lemma linspace_stop_iff (a b : Q) (k i : nat) :
  a < b -> (2 <= k)%nat -> (i < k)%nat ->
  (nth i (linspace a b k) 0 == b <-> i = (k - 1)%nat).
Proof.
  intros Hab Hk Hi. destruct k as [|[|d]]; try lia.
  replace (S (S d) - 1)%nat with (S d) by lia.
  assert (Hd : 0 < inject_Z (Z.of_nat (S d)))
    by (change 0 with (inject_Z 0); rewrite <- Zlt_Qlt; lia).
  destruct (Nat.eq_dec i (S d)) as [->|Hne].
  - rewrite nth_linspace_last. split; reflexivity.
  - rewrite nth_linspace_inner by lia.
    split; [|intro; contradiction]. intro H. exfalso.
    assert (Hlt : inject_Z (Z.of_nat i) < inject_Z (Z.of_nat (S d)))
      by (rewrite <- Zlt_Qlt; lia).
    set (qi := inject_Z (Z.of_nat i)) in *.
    set (qd := inject_Z (Z.of_nat (S d))) in *.
    assert (Heq : qi * ((b - a) / qd) == (b - a) * (qi / qd))
      by (field; qlra).
    assert (Hfr : qi / qd < 1).
    { apply Qlt_shift_div_r; [exact Hd | rewrite Qmult_1_l; exact Hlt]. }
    assert (Hm : (b - a) * (qi / qd) < (b - a) * 1).
    { apply Qmult_lt_l; [qlra | exact Hfr]. }
    set (u := qi * ((b - a) / qd)) in *.
    set (u' := (b - a) * (qi / qd)) in *. qlra.
Qed.

End NpFacts.

(** ** The masks *)

Module MaskFacts.
Import Np NpFacts.

Lemma get2_outer_outside {A : Type} (p : Q -> Q -> A) (xs ys : list Q)
      (i j : nat) (d : A) :
  ~ ((i < length xs)%nat /\ (j < length ys)%nat) ->
  get2 (outer p xs ys) i j d = d.
Proof.
  intro H. unfold get2, outer.
  destruct (Nat.lt_ge_cases i (length xs)) as [Hi|Hi].
  - rewrite (nth_map_lt _ _ _ 0 Hi).
    apply nth_overflow. rewrite length_map. lia.
  - rewrite (nth_overflow (map _ xs)) by now rewrite length_map.
    now destruct j.
Qed.

Lemma has_shape_outer {A : Type} (p : Q -> Q -> A) (xs ys : list Q) :
  has_shape (outer p xs ys) (length xs) (length ys).
Proof.
  split; unfold outer.
  - apply length_map.
  - apply Forall_forall. intros row Hin.
    apply in_map_iff in Hin. destruct Hin as [x [<- _]]. apply length_map.
Qed.

Lemma length_x_g : length x_g = Nx.
Proof. apply length_linspace. Qed.

Lemma length_y_g : length y_g = Ny.
Proof. apply length_linspace. Qed.

Ltac expose_grid :=
  unfold X_g, Y_g, meshgrid_sparse_ij, amap;
  cbn [fst snd map];
  generalize x_g y_g; intros xs ys;
  rewrite ?map_map; cbn [map].

Lemma Si_mask_outer : Si_mask = outer Si_at x_g y_g.
Proof.
  unfold Si_mask, left_wg_mask, top_right_wg_mask, bottom_right_wg_mask.
  expose_grid.
  rewrite !bcast2_col_row, !bcast2_outer. reflexivity.
Qed.

Lemma border_mask_outer : border_mask = outer border_at x_g y_g.
Proof.
  unfold border_mask. expose_grid.
  rewrite bcast2_col_col, bcast2_col_row, bcast2_outer_row. reflexivity.
Qed.

Lemma SiO2_mask_outer :
  SiO2_mask = outer (fun x y => if Si_at x y then false else border_at x y)
                x_g y_g.
Proof.
  unfold SiO2_mask. rewrite Si_mask_outer, border_mask_outer.
  apply mask_assign2_outer.
Qed.

Lemma Si_at_iff (x y : Q) :
  Si_at x y = true <->
  (on_left_edge x /\ within_waveguide 0 y)
  \/ (on_right_edge x
      /\ (within_waveguide (arm_separation / 2) y
          \/ within_waveguide (- arm_separation / 2) y)).
Proof.
  unfold Si_at, on_left_edge, on_right_edge, within_waveguide.
  rewrite !orb_true_iff, !andb_true_iff, !Qeq_bool_iff, !Qle_bool_iff.
  assert (E0 : y - 0 == y) by ring.
  assert (E1 : y - - arm_separation / 2 == y + arm_separation / 2)
    by field.
  rewrite E0, E1. tauto.
Qed.

Lemma border_at_iff (x y : Q) :
  border_at x y = true <->
  on_left_edge x \/ on_right_edge x \/ on_bottom_edge y \/ on_top_edge y.
Proof.
  unfold border_at, on_left_edge, on_right_edge, on_bottom_edge,
    on_top_edge.
  rewrite !orb_true_iff, !Qeq_bool_iff. tauto.
Qed.

Lemma Si_at_border (x y : Q) : Si_at x y = true -> border_at x y = true.
Proof.
  rewrite Si_at_iff, border_at_iff. tauto.
Qed.

Lemma width_interval : - design_region_width / 2 < design_region_width / 2.
Proof. reflexivity. Qed.

Lemma height_interval :
  - design_region_height / 2 < design_region_height / 2.
Proof. reflexivity. Qed.

Lemma Nx_ge_2 : (2 <= Nx)%nat.
Proof. change Nx with 250%nat. lia. Qed.

Lemma Ny_ge_2 : (2 <= Ny)%nat.
Proof. change Ny with 250%nat. lia. Qed.

Lemma left_edge_iff (i : nat) :
  (i < Nx)%nat -> (on_left_edge (nth i x_g 0) <-> i = 0%nat).
Proof.
  intro Hi. apply linspace_start_iff;
    [exact width_interval | exact Nx_ge_2 | exact Hi].
Qed.

Lemma right_edge_iff (i : nat) :
  (i < Nx)%nat -> (on_right_edge (nth i x_g 0) <-> i = (Nx - 1)%nat).
Proof.
  intro Hi. apply linspace_stop_iff;
    [exact width_interval | exact Nx_ge_2 | exact Hi].
Qed.

Lemma bottom_edge_iff (j : nat) :
  (j < Ny)%nat -> (on_bottom_edge (nth j y_g 0) <-> j = 0%nat).
Proof.
  intro Hj. apply linspace_start_iff;
    [exact height_interval | exact Ny_ge_2 | exact Hj].
Qed.

Lemma top_edge_iff (j : nat) :
  (j < Ny)%nat -> (on_top_edge (nth j y_g 0) <-> j = (Ny - 1)%nat).
Proof.
  intro Hj. apply linspace_stop_iff;
    [exact height_interval | exact Ny_ge_2 | exact Hj].
Qed.

End MaskFacts.

(** The comparisons that build the masks are decided with a margin on
    this grid: no [y] sample is within [margin] of a waveguide wall, and
    every [x] (resp. [y]) sample is either an end point of its interval
    or more than [margin] away from it.  The masks computed over [Q] are
    therefore the ones floating-point arithmetic gives. *)
Lemma mask_comparisons_have_margin :
  forallb (fun y =>
             clear_of (waveguide_width / 2) (Qabs y)
             && clear_of (waveguide_width / 2) (Qabs (y + arm_separation / 2))
             && clear_of (waveguide_width / 2) (Qabs (y - arm_separation / 2))
             && (Qeq_bool y (- design_region_height / 2)
                 || clear_of (- design_region_height / 2) y)
             && (Qeq_bool y (design_region_height / 2)
                 || clear_of (design_region_height / 2) y)) y_g
  = true
  /\ forallb (fun x =>
                (Qeq_bool x (- design_region_width / 2)
                 || clear_of (- design_region_width / 2) x)
                && (Qeq_bool x (design_region_width / 2)
                    || clear_of (design_region_width / 2) x)) x_g
     = true.
Proof. split; vm_compute; reflexivity. Qed.

(** C7: on the Nx-by-Ny grid the masks are given point by point by
    coordinate comparisons.  [Si_mask] holds at a point exactly when it
    is on the left edge with [|y| <= waveguide_width/2], or on the right
    edge with [y] within [waveguide_width/2] of [+arm_separation/2] or of
    [-arm_separation/2]; [border_mask] holds exactly on the four edges,
    which are the first and last rows and columns of the grid. *)
Theorem masks_by_coordinates (i j : nat) :
  (i < Nx)%nat -> (j < Ny)%nat ->
  has_shape Si_mask Nx Ny /\ has_shape border_mask Nx Ny
  /\ (Np.get2 Si_mask i j false = true <->
      (on_left_edge (nth i x_g 0) /\ within_waveguide 0 (nth j y_g 0))
      \/ (on_right_edge (nth i x_g 0)
          /\ (within_waveguide (arm_separation / 2) (nth j y_g 0)
              \/ within_waveguide (- arm_separation / 2) (nth j y_g 0))))
  /\ (Np.get2 border_mask i j false = true <->
      on_left_edge (nth i x_g 0) \/ on_right_edge (nth i x_g 0)
      \/ on_bottom_edge (nth j y_g 0) \/ on_top_edge (nth j y_g 0))
  /\ (on_left_edge (nth i x_g 0) <-> i = 0%nat)
  /\ (on_right_edge (nth i x_g 0) <-> i = (Nx - 1)%nat)
  /\ (on_bottom_edge (nth j y_g 0) <-> j = 0%nat)
  /\ (on_top_edge (nth j y_g 0) <-> j = (Ny - 1)%nat).
Proof.
  intros Hi Hj.
  pose proof MaskFacts.length_x_g as Lx. pose proof MaskFacts.length_y_g as Ly.
  split; [|split].
  - rewrite MaskFacts.Si_mask_outer, <- Lx, <- Ly at 1.
    apply MaskFacts.has_shape_outer.
  - rewrite MaskFacts.border_mask_outer, <- Lx, <- Ly at 1.
    apply MaskFacts.has_shape_outer.
  - rewrite MaskFacts.Si_mask_outer, MaskFacts.border_mask_outer.
    rewrite !NpFacts.get2_outer by (rewrite ?Lx, ?Ly; assumption).
    split; [apply MaskFacts.Si_at_iff|].
    split; [apply MaskFacts.border_at_iff|].
    split; [now apply MaskFacts.left_edge_iff|].
    split; [now apply MaskFacts.right_edge_iff|].
    split; [now apply MaskFacts.bottom_edge_iff
           | now apply MaskFacts.top_edge_iff].
Qed.

(** The claim at the grid point [(0, 120)] of the left edge. *)
Lemma masks_by_coordinates_witness :
  (0 < Nx)%nat /\ (120 < Ny)%nat
  /\ (on_left_edge (nth 0 x_g 0) <-> 0%nat = 0%nat).
Proof.
  assert (Hi : (0 < Nx)%nat) by (change Nx with 250%nat; lia).
  assert (Hj : (120 < Ny)%nat) by (change Ny with 250%nat; lia).
  split; [exact Hi | split; [exact Hj|]].
  exact (proj1 (proj2 (proj2 (proj2 (proj2
    (masks_by_coordinates Hi Hj)))))).
Defined.

(** C9: the Si and SiO2 masks are disjoint, every Si point lies on the
    border, on its left or right edge, and the two masks together are
    the border mask. *)
Theorem masks_partition_border (i j : nat) :
  has_shape Si_mask Nx Ny /\ has_shape SiO2_mask Nx Ny
  /\ has_shape border_mask Nx Ny
  /\ Np.get2 Si_mask i j false && Np.get2 SiO2_mask i j false = false
  /\ (Np.get2 Si_mask i j false = true ->
      Np.get2 border_mask i j false = true
      /\ (i = 0%nat \/ i = (Nx - 1)%nat))
  /\ Np.get2 Si_mask i j false || Np.get2 SiO2_mask i j false
     = Np.get2 border_mask i j false
  /\ Np.get2 SiO2_mask i j false
     = Np.get2 border_mask i j false && negb (Np.get2 Si_mask i j false).
Proof.
  pose proof MaskFacts.length_x_g as Lx. pose proof MaskFacts.length_y_g as Ly.
  split; [|split; [|split]].
  - rewrite MaskFacts.Si_mask_outer, <- Lx, <- Ly at 1.
    apply MaskFacts.has_shape_outer.
  - rewrite MaskFacts.SiO2_mask_outer, <- Lx, <- Ly at 1.
    apply MaskFacts.has_shape_outer.
  - rewrite MaskFacts.border_mask_outer, <- Lx, <- Ly at 1.
    apply MaskFacts.has_shape_outer.
  - rewrite MaskFacts.Si_mask_outer, MaskFacts.SiO2_mask_outer,
      MaskFacts.border_mask_outer.
    destruct (Nat.lt_ge_cases i (length x_g)) as [Hi|Hi];
      [destruct (Nat.lt_ge_cases j (length y_g)) as [Hj|Hj]|].
    + rewrite !NpFacts.get2_outer by assumption.
      pose proof (@MaskFacts.Si_at_border (nth i x_g 0) (nth j y_g 0)) as Hb.
      pose proof (MaskFacts.Si_at_iff (nth i x_g 0) (nth j y_g 0)) as Hs.
      rewrite Lx in Hi.
      pose proof (MaskFacts.left_edge_iff Hi) as Hl.
      pose proof (MaskFacts.right_edge_iff Hi) as Hr.
      destruct (Si_at (nth i x_g 0) (nth j y_g 0)) eqn:ESi.
      * rewrite (Hb eq_refl). repeat split; try reflexivity.
        destruct (proj1 Hs eq_refl) as [[Hedge _]|[Hedge _]];
          [left; now apply Hl | right; now apply Hr].
      * repeat split; try discriminate;
          destruct (border_at (nth i x_g 0) (nth j y_g 0)); reflexivity.
    + rewrite !MaskFacts.get2_outer_outside by lia.
      repeat split; discriminate.
    + rewrite !MaskFacts.get2_outer_outside by lia.
      repeat split; discriminate.
Qed.

(** The claim at the grid point [(0, 125)], which is a Si point. *)
Lemma masks_partition_border_witness :
  Np.get2 Si_mask 0 125 false = true
  /\ Np.get2 border_mask 0 125 false = true
  /\ (0%nat = 0%nat \/ 0%nat = (Nx - 1)%nat).
Proof.
  assert (H : Np.get2 Si_mask 0 125 false = true) by (vm_compute; reflexivity).
  split; [exact H|].
  exact (proj1 (proj2 (proj2 (proj2 (proj2 (masks_partition_border 0 125)))))
           H).
Defined.

(** ** The design vector and its bounds *)

Module BoundFacts.
Import Np NpFacts MaskFacts.

Lemma length_flatten_outer {A : Type} (p : Q -> Q -> A) (xs ys : list Q) :
  length (flatten (outer p xs ys)) = (length xs * length ys)%nat.
Proof.
  rewrite flatten_outer, length_map. apply length_prod.
Qed.

Lemma length_flat_Si : length (flatten Si_mask) = (Nx * Ny)%nat.
Proof.
  rewrite Si_mask_outer, length_flatten_outer, length_x_g, length_y_g.
  reflexivity.
Qed.

Lemma length_flat_SiO2 : length (flatten SiO2_mask) = (Nx * Ny)%nat.
Proof.
  rewrite SiO2_mask_outer, length_flatten_outer, length_x_g, length_y_g.
  reflexivity.
Qed.

Lemma length_mask_assign {A : Type} (a : list A) (m : list bool) (v : A) :
  length a = length m -> length (mask_assign a m v) = length a.
Proof.
  intro H. unfold mask_assign. rewrite length_zip_with, <- H. lia.
Qed.

Lemma nth_mask_assign {A : Type} (a : list A) (m : list bool) (v d : A)
      (i : nat) :
  (i < length a)%nat -> (i < length m)%nat ->
  nth i (mask_assign a m v) d = if nth i m false then v else nth i a d.
Proof.
  intros Ha Hm. unfold mask_assign.
  apply (nth_zip_with (fun ai mi => if mi : bool then v else ai)); assumption.
Qed.

(** No entry is claimed by both masks. *)
Lemma flat_masks_disjoint (i : nat) :
  nth i (flatten Si_mask) false && nth i (flatten SiO2_mask) false = false.
Proof.
  rewrite Si_mask_outer, SiO2_mask_outer, !flatten_outer.
  generalize (list_prod x_g y_g). intro pts.
  destruct (Nat.lt_ge_cases i (length pts)) as [Hi|Hi].
  - rewrite !(nth_map_lt _ _ _ (0, 0) Hi).
    now destruct (Si_at _ _).
  - rewrite (nth_overflow (map _ _)) by now rewrite length_map.
    reflexivity.
Qed.

End BoundFacts.

(** C2: when the loop starts, [x], [lb] and [ub] all have length
    [Nx * Ny], and at every index [lb[i] <= x[i] <= ub[i]]: [lb] is 0
    except 1 on the Si mask, [ub] is 1 except 0 on the SiO2 mask, and
    [x] is 0.5 except 1 on the Si mask and 0 on the SiO2 mask. *)
Theorem bounds_at_loop_start (i : nat) :
  (i < Nx * Ny)%nat ->
  length x_init = (Nx * Ny)%nat /\ length lb = (Nx * Ny)%nat
  /\ length ub = (Nx * Ny)%nat
  /\ nth i lb 0 <= nth i x_init 0 /\ nth i x_init 0 <= nth i ub 0
  /\ nth i lb 0 = (if nth i (Np.flatten Si_mask) false then 1 else 0)
  /\ nth i ub 0 = (if nth i (Np.flatten SiO2_mask) false then 0 else 1)
  /\ nth i x_init 0
     == (if nth i (Np.flatten Si_mask) false then 1
         else if nth i (Np.flatten SiO2_mask) false then 0 else 0.5).
Proof.
  intro Hi.
  pose proof BoundFacts.length_flat_Si as LS.
  pose proof BoundFacts.length_flat_SiO2 as LO.
  pose proof (BoundFacts.flat_masks_disjoint i) as Hdis.
  assert (Lhalf : length (map (fun v => v * 0.5) (Np.ones n)) = (Nx * Ny)%nat)
    by (unfold Np.ones; rewrite length_map, repeat_length; reflexivity).
  assert (Lx1 : length (Np.mask_assign (map (fun v => v * 0.5) (Np.ones n))
                          (Np.flatten Si_mask) 1) = (Nx * Ny)%nat)
    by (rewrite BoundFacts.length_mask_assign; congruence).
  assert (Lzero : length (Np.zeros (Nx * Ny)) = (Nx * Ny)%nat)
    by apply repeat_length.
  assert (Lone : length (Np.ones (Nx * Ny)) = (Nx * Ny)%nat)
    by apply repeat_length.
  assert (Ex : nth i x_init 0
               = if nth i (Np.flatten SiO2_mask) false then 0
                 else if nth i (Np.flatten Si_mask) false then 1
                      else 1 * 0.5).
  { unfold x_init.
    rewrite BoundFacts.nth_mask_assign by lia.
    rewrite BoundFacts.nth_mask_assign by lia.
    rewrite (NpFacts.nth_map_lt _ _ _ 1)
      by (unfold Np.ones; rewrite repeat_length; exact Hi).
    unfold Np.ones. rewrite nth_repeat. reflexivity. }
  assert (El : nth i lb 0 = if nth i (Np.flatten Si_mask) false then 1 else 0).
  { unfold lb. rewrite BoundFacts.nth_mask_assign by lia.
    unfold Np.zeros. rewrite nth_repeat. reflexivity. }
  assert (Eu : nth i ub 0
               = if nth i (Np.flatten SiO2_mask) false then 0 else 1).
  { unfold ub. rewrite BoundFacts.nth_mask_assign by lia.
    unfold Np.ones. rewrite (nth_indep _ 0 1) by (rewrite repeat_length; lia).
    rewrite nth_repeat. reflexivity. }
  split; [unfold x_init; rewrite BoundFacts.length_mask_assign; congruence|].
  split; [unfold lb; rewrite BoundFacts.length_mask_assign; congruence|].
  split; [unfold ub; rewrite BoundFacts.length_mask_assign; congruence|].
  rewrite Ex, El, Eu.
  destruct (nth i (Np.flatten Si_mask) false),
    (nth i (Np.flatten SiO2_mask) false);
    try discriminate Hdis;
    repeat split; try reflexivity; try discriminate.
Qed.

(** The claim at index 0, a corner of the grid, held at SiO2. *)
Lemma bounds_at_loop_start_witness :
  (0 < Nx * Ny)%nat
  /\ nth 0 lb 0 <= nth 0 x_init 0 /\ nth 0 x_init 0 <= nth 0 ub 0.
Proof.
  assert (H : (0 < Nx * Ny)%nat)
    by (apply Nat.mul_pos_pos; [change Nx with 250%nat | change Ny with 250%nat];
        lia).
  split; [exact H|].
  split; [exact (proj1 (proj2 (proj2 (proj2 (bounds_at_loop_start H)))))
         | exact (proj1 (proj2 (proj2 (proj2 (proj2
                    (bounds_at_loop_start H))))))].
Defined.

(** ** Runs of notebook computations *)

Section RunFacts.

Context {W : Type}.
Implicit Types s : state W.

Lemma state_eta s : State (world s) (vars s) = s.
Proof. now destruct s. Qed.

Lemma after_nil {A : Type} (r : run W A) : after [] r = r.
Proof. now destruct r. Qed.

Lemma after_after {A : Type} (t1 t2 : list outcome) (r : run W A) :
  after t1 (after t2 r) = after (t1 ++ t2) r.
Proof. unfold after. simpl. now rewrite app_assoc. Qed.

Lemma bind_ret {A B : Type} (a : A) (k : A -> M W B) s :
  bind (ret a) k s = k a s.
Proof. unfold bind, ret. apply after_nil. Qed.

Lemma bind_raise {A B : Type} (e : exn) (k : A -> M W B) s :
  bind (raise e) k s = Run [] (Raise e) s.
Proof. reflexivity. Qed.

Lemma bind_read {X B : Type} (field : globals -> X) (k : X -> M W B) s :
  bind (read field) k s = k (field (vars s)) s.
Proof. unfold bind, read. apply after_nil. Qed.

Lemma bind_write {B : Type} (upd : globals -> globals)
      (k : unit -> M W B) s :
  bind (write upd) k s = k tt (State (world s) (upd (vars s))).
Proof. unfold bind, write. apply after_nil. Qed.

Lemma bind_print {B : Type} (l : line) (k : unit -> M W B) s :
  bind (print l) k s
  = k tt (State (world s) (set_stdout (stdout (vars s) ++ [l]) (vars s))).
Proof. unfold print. now rewrite bind_write. Qed.

Lemma call_run {X : Type} (fn : string) (o : op W X) s :
  call fn o s
  = match o (world s) with
    | (inr v, w) => Run [Returned fn] (Ok v) (State w (vars s))
    | (inl e, w) => Run [Raised fn e] (Raise e) (State w (vars s))
    end.
Proof. reflexivity. Qed.

Lemma bind_call {X B : Type} (fn : string) (o : op W X)
      (k : X -> M W B) s :
  bind (call fn o) k s
  = match o (world s) with
    | (inr v, w) => after [Returned fn] (k v (State w (vars s)))
    | (inl e, w) => Run [Raised fn e] (Raise e) (State w (vars s))
    end.
Proof. unfold bind, call. now destruct (o (world s)) as [[e|v] w]. Qed.

Lemma call_pure_run {X : Type} (fn : string) (r : exn + X) s :
  call_pure fn r s
  = match r with
    | inr v => Run [Returned fn] (Ok v) s
    | inl e => Run [Raised fn e] (Raise e) s
    end.
Proof.
  unfold call_pure, call. destruct r; now rewrite state_eta.
Qed.

Lemma bind_call_pure {X B : Type} (fn : string) (r : exn + X)
      (k : X -> M W B) s :
  bind (call_pure fn r) k s
  = match r with
    | inr v => after [Returned fn] (k v s)
    | inl e => Run [Raised fn e] (Raise e) s
    end.
Proof.
  unfold call_pure. rewrite bind_call. destruct r; now rewrite state_eta.
Qed.

Lemma bind_assoc {A B X : Type} (m : M W A) (k1 : A -> M W B)
      (k2 : B -> M W X) s :
  bind (bind m k1) k2 s = bind m (fun a => bind (k1 a) k2) s.
Proof.
  unfold bind. destruct (m s) as [tr [a|e] s1]; [|reflexivity].
  destruct (k1 a s1) as [tr1 [b|e] s2]; simpl; [|reflexivity].
  symmetry. apply after_after.
Qed.

(** Two continuations that agree where the first part ends. *)
Lemma bind_ext_at {A B : Type} (m : M W A) (k1 k2 : A -> M W B) s :
  (forall a, result (m s) = Ok a ->
             k1 a (final (m s)) = k2 a (final (m s))) ->
  bind m k1 s = bind m k2 s.
Proof.
  intro H. unfold bind. destruct (m s) as [tr [a|e] s1]; [|reflexivity].
  simpl in H. now rewrite (H a eq_refl).
Qed.

Lemma bind_cases {A B : Type} (m : M W A) (k : A -> M W B) s :
  (exists a, result (m s) = Ok a
             /\ bind m k s = after (trace (m s)) (k a (final (m s))))
  \/ (exists e, result (m s) = Raise e
                /\ bind m k s = Run (trace (m s)) (Raise e) (final (m s))).
Proof.
  unfold bind. destruct (m s) as [tr [a|e] s1]; simpl; eauto.
Qed.

End RunFacts.

(** Symbolic execution of straight-line notebook code: one statement
    at a time, splitting on what a library call does. *)
Ltac split_pairs v :=
  lazymatch type of v with
  | (_ * _)%type =>
      let a := fresh "a" in let b := fresh "b" in
      destruct v as [a b]; split_pairs a
  | _ => idtac
  end.

Ltac exec_call :=
  lazymatch goal with
  | |- context [bind (call ?fn ?o) ?k ?s] =>
      rewrite (bind_call fn o k s); cbn [world vars];
      let ws := eval cbn [world vars] in (world s) in
      let o' := eval cbn [world vars] in o in
      let e := fresh "e" in
      let v := fresh "v" in
      let w := fresh "w" in
      let E := fresh "Ecall" in
      destruct (o' ws) as [[e|v] w] eqn:E; [|split_pairs v];
      cbv beta iota
  end.

Ltac exec_pure :=
  lazymatch goal with
  | |- context [bind (call_pure ?fn ?r) ?k ?s] =>
      rewrite (bind_call_pure fn r k s)
  end.

Ltac exec :=
  repeat first
    [ rewrite bind_assoc
    | rewrite bind_ret
    | rewrite bind_read
    | rewrite bind_print
    | rewrite bind_write
    | exec_pure; cbv beta iota ].

Section PropagationFacts.

Context {W : Type}.

Lemma propagates_ok {A : Type} (a : A) (s : state W) :
  propagates (Run [] (Ok a) s).
Proof. constructor. Qed.

Lemma propagates_returned {A : Type} (fn : string) (a : A) (s : state W) :
  propagates (Run [Returned fn] (Ok a) s).
Proof. repeat constructor. Qed.

Lemma propagates_raised {A : Type} (fn : string) (e : exn) (s : state W) :
  propagates (Run (A := A) [Raised fn e] (Raise e) s).
Proof. exists fn, []. split; [reflexivity | constructor]. Qed.

Lemma propagates_after {A : Type} (tr : list outcome) (r : run W A) :
  Forall returned tr -> propagates r -> propagates (after tr r).
Proof.
  intros Htr. unfold propagates, after. simpl.
  destruct (result r) as [a|e].
  - intro H. apply Forall_app. now split.
  - intros [fn [before [-> Hb]]]. exists fn, (tr ++ before).
    split; [now rewrite app_assoc | apply Forall_app; now split].
Qed.

Lemma propagates_after_returned {A : Type} (fn : string) (r : run W A) :
  propagates r -> propagates (after [Returned fn] r).
Proof. apply propagates_after. repeat constructor. Qed.

End PropagationFacts.

Section MappingFacts.

Context {W Axes Patch : Type}.
Variable L : Library W Axes Patch.

Lemma mapping_run (x : list R) (eta : Q) (beta : Z) (s : state W) :
  mapping L x eta beta s
  = match conic_filter L x (filter_radius L) design_region_width
            design_region_height design_region_resolution (world s) with
    | (inl e, w1) =>
        Run [Raised "mpa.conic_filter" e] (Raise e) (State w1 (vars s))
    | (inr filtered_field, w1) =>
        match tanh_projection L filtered_field beta eta w1 with
        | (inl e, w2) =>
            Run [Returned "mpa.conic_filter";
                 Raised "mpa.tanh_projection" e]
              (Raise e) (State w2 (vars s))
        | (inr projected_field, w2) =>
            Run [Returned "mpa.conic_filter";
                 Returned "mpa.tanh_projection";
                 Returned "ndarray.flatten"]
              (Ok (Np.flatten projected_field)) (State w2 (vars s))
        end
    end.
Proof.
  unfold mapping. exec_call; [reflexivity|].
  exec_call; [reflexivity|].
  rewrite call_pure_run. reflexivity.
Qed.

Lemma mapping_propagates (x : list R) (eta : Q) (beta : Z) (s : state W) :
  propagates (mapping L x eta beta s).
Proof.
  rewrite mapping_run.
  destruct (conic_filter _ _ _ _ _ _ _) as [[e|ff] w1];
    [apply propagates_raised|].
  destruct (tanh_projection _ _ _ _ _) as [[e|pf] w2].
  - exists "mpa.tanh_projection"%string, [Returned "mpa.conic_filter"].
    split; [reflexivity | repeat constructor].
  - repeat constructor.
Qed.

Lemma mapping_vars (x : list R) (eta : Q) (beta : Z) (s : state W) :
  vars (final (mapping L x eta beta s)) = vars s.
Proof.
  rewrite mapping_run.
  destruct (conic_filter _ _ _ _ _ _ _) as [[e|ff] w1]; [reflexivity|].
  now destruct (tanh_projection _ _ _ _ _) as [[e|pf] w2].
Qed.

End MappingFacts.

(** C4: [mapping(x, eta, beta)] is filter, then project, then flatten:
    the conic filter is applied to [x] with the fixed radius and design
    region dimensions, the tanh projection with steepness [beta] and
    threshold [eta] is applied to the filtered field, and the result is
    flattened; no other library is called and no global is touched. *)
Theorem mapping_is_filter_project_flatten
        {W Axes Patch : Type} (L : Library W Axes Patch)
        (x : list R) (eta : Q) (beta : Z) (s : state W) :
  mapping L x eta beta s = filter_project_flatten L x eta beta s
  /\ vars (final (mapping L x eta beta s)) = vars s
  /\ mapping L x eta beta s
     = match conic_filter L x (filter_radius L) design_region_width
               design_region_height design_region_resolution (world s) with
       | (inl e, w1) =>
           Run [Raised "mpa.conic_filter" e] (Raise e) (State w1 (vars s))
       | (inr filtered_field, w1) =>
           match tanh_projection L filtered_field beta eta w1 with
           | (inl e, w2) =>
               Run [Returned "mpa.conic_filter";
                    Raised "mpa.tanh_projection" e]
                 (Raise e) (State w2 (vars s))
           | (inr projected_field, w2) =>
               Run [Returned "mpa.conic_filter";
                    Returned "mpa.tanh_projection";
                    Returned "ndarray.flatten"]
                 (Ok (Np.flatten projected_field)) (State w2 (vars s))
           end
       end.
Proof.
  split; [reflexivity|].
  split; [apply mapping_vars | apply mapping_run].
Qed.

(** ** The objective [J] *)

Module JFacts.
Import Np.

Lemma bcast_same_length {A B X : Type} (f : A -> B -> X)
      (a : list A) (b : list B) :
  length a = length b -> bcast f a b = zip_with f a b.
Proof.
  destruct a as [|x [|x' a]], b as [|y [|y' b]]; simpl;
    intro H; try discriminate H; reflexivity.
Qed.

Lemma binop_same_length {A B X : Type} (f : A -> B -> X)
      (a : list A) (b : list B) :
  length a = length b -> Npa.binop f a b = inr (zip_with f a b).
Proof.
  intro H. unfold Npa.binop, Npa.broadcastable.
  rewrite H, Nat.eqb_refl. simpl. rewrite bcast_same_length by exact H.
  reflexivity.
Qed.

Lemma Cabs_square (z : C) : (Cabs z ^ 2)%R = Cnorm2 z.
Proof.
  unfold Cabs, Cnorm2. apply pow2_sqrt.
  pose proof (Rle_0_sqr (fst z)) as H1. pose proof (Rle_0_sqr (snd z)) as H2.
  unfold Rsqr in *. lra.
Qed.

Lemma power_per_frequency (source top bottom : list C) :
  length top = length source -> length bottom = length source ->
  zip_with Rplus
    (Npa.square (Npa.abs (zip_with Cdiv top source)))
    (Npa.square (Npa.abs (zip_with Cdiv bottom source)))
  = per_frequency source top bottom.
Proof.
  revert top bottom.
  induction source as [|s source IH]; intros [|t top] [|b bottom] Ht Hb;
    simpl in *; try discriminate; [reflexivity|].
  unfold splitting_power. rewrite <- !Cabs_square. f_equal.
  apply IH; congruence.
Qed.

Lemma length_per_frequency (source top bottom : list C) :
  length top = length source -> length bottom = length source ->
  length (per_frequency source top bottom) = length source.
Proof.
  revert top bottom.
  induction source as [|s source IH]; intros [|t top] [|b bottom] Ht Hb;
    simpl in *; try discriminate; [reflexivity|].
  f_equal. apply IH; congruence.
Qed.

Lemma per_frequency_sym (source top bottom : list C) :
  per_frequency source top bottom = per_frequency source bottom top.
Proof.
  revert top bottom.
  induction source as [|s source IH]; intros [|t top] [|b bottom];
    simpl; try reflexivity.
  unfold splitting_power. rewrite Rplus_comm. f_equal. apply IH.
Qed.

Lemma J_mean_sym (source top bottom : list C) :
  J_mean source top bottom = J_mean source bottom top.
Proof. unfold J_mean. now rewrite per_frequency_sym. Qed.

Section Runs.

Context {W : Type}.

Lemma J_run (source top bottom : list C) (s : state W) :
  length top = length source -> length bottom = length source ->
  J source top bottom s
  = Run [Returned "npa.divide"; Returned "npa.abs"; Returned "npa.power";
         Returned "npa.divide"; Returned "npa.abs"; Returned "npa.power";
         Returned "npa.add"; Returned "npa.mean"]
      (Ok (J_mean source top bottom)) s.
Proof.
  intros Ht Hb. unfold J, Npa.divide, Npa.add.
  rewrite !binop_same_length by assumption. exec.
  rewrite binop_same_length
    by (unfold Npa.square, Npa.abs;
        rewrite !length_map, !NpFacts.length_zip_with; lia).
  exec. rewrite call_pure_run. unfold after. simpl.
  rewrite power_per_frequency by assumption.
  unfold Npa.mean, Npa.sum, J_mean.
  rewrite length_per_frequency by assumption. reflexivity.
Qed.

Lemma J_propagates (source top bottom : list C) (s : state W) :
  propagates (J source top bottom s).
Proof.
  unfold J. exec_pure.
  destruct (Npa.divide top source) as [e|qt];
    [apply propagates_raised|].
  exec. destruct (Npa.divide bottom source) as [e|qb].
  { repeat apply propagates_after_returned. apply propagates_raised. }
  exec. destruct (Npa.add _ _) as [e|power].
  { repeat apply propagates_after_returned. apply propagates_raised. }
  rewrite call_pure_run.
  repeat apply propagates_after_returned. apply propagates_returned.
Qed.

End Runs.

End JFacts.

(** C5: [J] depends only on the three coefficient arrays it is given.
    For arrays with one entry per frequency (and nonzero source
    coefficients) it returns the arithmetic mean over the frequencies of
    [|top/source|^2 + |bottom/source|^2], whatever the state of the
    notebook and of the libraries, and exchanging [top] and [bottom]
    does not change it. *)
Theorem J_is_mean_splitting_power
        {W : Type} (source top bottom : list C) (s : state W) :
  length top = length source -> length bottom = length source ->
  Forall (fun z => z <> C0) source ->
  result (J source top bottom s) = Ok (J_mean source top bottom)
  /\ final (J source top bottom s) = s
  /\ J_mean source top bottom = J_mean source bottom top
  /\ result (J source top bottom s) = result (J source bottom top s).
Proof.
  intros Ht Hb _.
  rewrite !JFacts.J_run by assumption.
  simpl. rewrite <- JFacts.J_mean_sym. repeat split; reflexivity.
Qed.

(** The claim for one frequency, [source = 1], [top = 1], [bottom = i]. *)
Lemma J_is_mean_splitting_power_witness :
  result (J [(1, 0)%R] [(1, 0)%R] [(0, 1)%R] Demo.start)
  = Ok (J_mean [(1, 0)%R] [(1, 0)%R] [(0, 1)%R]).
Proof.
  refine (proj1 (@J_is_mean_splitting_power _
                   [(1, 0)%R] [(1, 0)%R] [(0, 1)%R] Demo.start
                   eq_refl eq_refl _)).
  constructor; [|constructor].
  unfold C0. intro H. apply (f_equal fst) in H. simpl in H. lra.
Defined.

(** ** The callback [f] *)

Ltac run_leaf :=
  split;
  [ repeat apply propagates_after_returned;
    first [ apply propagates_raised | apply propagates_returned
          | apply propagates_ok ]
  | simpl; try reflexivity ].

Section CallbackFacts.

Context {W Axes Patch : Type}.
Variable L : Library W Axes Patch.

Lemma get_cur_iter_0_run {B : Type} (K : Z -> M W B) (s : state W)
      (k : Z) (rest : list Z) :
  cur_iter (vars s) = k :: rest ->
  bind get_cur_iter_0 K s = K k s.
Proof.
  intro H. unfold get_cur_iter_0.
  rewrite bind_assoc, bind_read, H, bind_ret. reflexivity.
Qed.

Lemma set_cur_iter_0_run {B : Type} (K : unit -> M W B) (s : state W)
      (k k' : Z) (rest : list Z) :
  cur_iter (vars s) = k :: rest ->
  bind (set_cur_iter_0 k') K s
  = K tt (State (world s) (set_cur_iter (k' :: rest) (vars s))).
Proof.
  intro H. unfold set_cur_iter_0.
  rewrite bind_assoc, bind_read, H, bind_write. reflexivity.
Qed.

(** What one evaluation of the callback does, from a state in which
    [cur_iter] is [k :: rest]. *)
Lemma f_run (v gradient : list R) (beta : Z) (s : state W)
      (k : Z) (rest : list Z) :
  cur_iter (vars s) = k :: rest ->
  propagates (f L v gradient beta s)
  /\ match result (f L v gradient beta s) with
     | Ok (val, _) =>
         exists f0 h,
           val = Npa.real f0 /\ Npa.max (Npa.real f0) = inr h
           /\ (exists m dJ_du w w',
                 opt_call L [m] true w = (inr (f0, dJ_du), w'))
           /\ vars (final (f L v gradient beta s))
              = set_cur_iter ((k + 1)%Z :: rest)
                  (set_evaluation_history
                     (evaluation_history (vars s) ++ [h])
                     (set_stdout
                        (stdout (vars s) ++ [CurrentIteration (k + 1)])
                        (vars s)))
     | Raise e =>
         vars (final (f L v gradient beta s))
         = set_stdout (stdout (vars s) ++ [CurrentIteration (k + 1)])
             (vars s)
     end.
Proof.
  intro Hc.
  pattern (f L v gradient beta s).
  match goal with |- ?P _ => set (Post := P) end.
  unfold f.
  rewrite (get_cur_iter_0_run _ _ Hc), bind_print.
  unfold mapping at 1. rewrite !bind_assoc.
  exec_call; [run_leaf|]. rewrite ?bind_assoc.
  exec_call; [run_leaf|]. exec.
  exec_call; [run_leaf|].
  exec_call; [run_leaf|].
  exec_call; [run_leaf|].
  exec_call; [run_leaf|].
  exec_call; [run_leaf|].
  exec_call; [run_leaf|].
  exec_call; [run_leaf|].
  rewrite (@get_cur_iter_0_run _ _ _ k rest) by exact Hc.
  exec_call; [run_leaf|].
  exec_call; [run_leaf|].
  destruct (0 <? length gradient)%nat.
  - rewrite ?bind_assoc.
    exec_call; [run_leaf|]. exec.
    exec_call; [run_leaf|]. exec.
    match goal with
    | |- context [Npa.assign_all gradient ?g] =>
        destruct (Npa.assign_all gradient g) as [e|gradient']; [run_leaf|]
    end.
    exec.
    destruct (Npa.max (Npa.real a)) as [e|h] eqn:Emax; [run_leaf|].
    exec.
    rewrite (@get_cur_iter_0_run _ _ _ k rest) by exact Hc.
    rewrite (@set_cur_iter_0_run _ _ _ k (k + 1)%Z rest) by exact Hc.
    exec. unfold ret. run_leaf.
    exists a, h. repeat split; try assumption. eauto.
  - exec.
    destruct (Npa.max (Npa.real a)) as [e|h] eqn:Emax; [run_leaf|].
    exec.
    rewrite (@get_cur_iter_0_run _ _ _ k rest) by exact Hc.
    rewrite (@set_cur_iter_0_run _ _ _ k (k + 1)%Z rest) by exact Hc.
    exec. unfold ret. run_leaf.
    exists a, h. repeat split; try assumption. eauto.
Qed.

End CallbackFacts.


(** ** The optimizer and the loop *)

Section LoopFacts.

Context {W Axes Patch : Type}.
Variable L : Library W Axes Patch.

Lemma f_run_no_counter (v gradient : list R) (beta : Z) (s : state W) :
  cur_iter (vars s) = [] ->
  f L v gradient beta s = Run [] (Raise IndexError) s.
Proof.
  intro H. unfold f, get_cur_iter_0.
  rewrite !bind_assoc, bind_read, H, bind_raise. reflexivity.
Qed.

Lemma iteration_lines_app (a b : list line) :
  iteration_lines (a ++ b) = (iteration_lines a + iteration_lines b)%nat.
Proof. unfold iteration_lines. now rewrite filter_app, length_app. Qed.

Lemma beta_lines_app (a b : list line) :
  beta_lines (a ++ b) = (beta_lines a + beta_lines b)%nat.
Proof. unfold beta_lines. now rewrite filter_app, length_app. Qed.

Lemma evaluates_nothing {A : Type} (s : state W) (r : run W A) :
  vars (final r) = vars s -> evaluates_at_most 0 s r.
Proof.
  intro H. unfold evaluates_at_most. rewrite H.
  split; [reflexivity | split; [tauto|]].
  exists []. rewrite app_nil_r. repeat split; reflexivity || apply le_n.
Qed.

Lemma evaluates_weaken {A : Type} (j k : nat) (s : state W) (r : run W A) :
  (j <= k)%nat -> evaluates_at_most j s r -> evaluates_at_most k s r.
Proof.
  intros Hjk (Hb & Hc & out & Ho & Hi & Hbl).
  split; [exact Hb | split; [exact Hc|]].
  exists out. repeat split; try assumption. lia.
Qed.

Lemma evaluates_then {A B : Type} (j k : nat) (s : state W)
      (r1 : run W A) (r2 : run W B) :
  evaluates_at_most j s r1 -> evaluates_at_most k (final r1) r2 ->
  evaluates_at_most (j + k) s (after (trace r1) r2).
Proof.
  intros (Hb1 & Hc1 & o1 & Ho1 & Hi1 & Hl1) (Hb2 & Hc2 & o2 & Ho2 & Hi2 & Hl2).
  unfold evaluates_at_most. simpl.
  split; [congruence | split; [tauto|]].
  exists (o1 ++ o2). rewrite Ho2, Ho1, app_assoc.
  rewrite iteration_lines_app, beta_lines_app.
  repeat split; lia.
Qed.

Lemma evaluates_bind {A B : Type} (j k : nat) (m : M W A)
      (K : A -> M W B) (s : state W) :
  evaluates_at_most j s (m s) ->
  (forall a s', evaluates_at_most k s' (K a s')) ->
  evaluates_at_most (j + k) s (bind m K s).
Proof.
  intros Hm HK.
  destruct (bind_cases m K s) as [(a & _ & ->)|(e & _ & ->)].
  - apply evaluates_then; [exact Hm | apply HK].
  - apply evaluates_weaken with (j := j); [lia|].
    exact Hm.
Qed.

Lemma call_vars {X : Type} (fn : string) (o : op W X) (s : state W) :
  vars (final (call fn o s)) = vars s.
Proof. unfold call. now destruct (o (world s)) as [[e|v] w]. Qed.

Lemma evaluates_call {X : Type} (fn : string) (o : op W X) (s : state W) :
  evaluates_at_most 0 s (call fn o s).
Proof. apply evaluates_nothing, call_vars. Qed.

Lemma f_evaluates (v gradient : list R) (beta : Z) (s : state W) :
  evaluates_at_most 1 s (f L v gradient beta s).
Proof.
  destruct (cur_iter (vars s)) as [|k rest] eqn:Hc.
  - rewrite f_run_no_counter by exact Hc.
    apply evaluates_weaken with (j := 0%nat); [lia|].
    now apply evaluates_nothing.
  - destruct (f_run L v gradient beta s Hc) as [_ H].
    unfold evaluates_at_most.
    destruct (result (f L v gradient beta s)) as [[val g']|e].
    + destruct H as (f0 & h & _ & _ & _ & ->). simpl.
      split; [reflexivity | split; [discriminate|]].
      exists [CurrentIteration (k + 1)]. repeat split; apply le_n.
    + rewrite H. simpl. rewrite Hc.
      split; [reflexivity | split; [discriminate|]].
      exists [CurrentIteration (k + 1)]. repeat split; apply le_n.
Qed.

Lemma objective_run (a g : list R) (s : state W) :
  objective L a g s = f L a g (cur_beta (vars s)) s.
Proof. unfold objective. apply bind_read. Qed.

Lemma bind_objective {B : Type} (a g : list R)
      (K : list R * list R -> M W B) (s : state W) :
  bind (objective L a g) K s = bind (f L a g (cur_beta (vars s))) K s.
Proof. unfold bind. now rewrite objective_run. Qed.

Lemma nlopt_iterate_evaluates
      (obj : list R -> list R -> M W (list R * list R)) (dim : nat) :
  (forall a g s, evaluates_at_most 1 s (obj a g s)) ->
  forall fuel x s,
    evaluates_at_most fuel s (nlopt_iterate L fuel obj dim x s).
Proof.
  intros Hobj. induction fuel as [|fuel IH]; intros x s; simpl.
  - apply evaluates_call.
  - change (S fuel) with (1 + fuel)%nat.
    apply evaluates_bind; [apply Hobj|].
    intros [val grad] s1.
    change fuel with (0 + fuel)%nat.
    apply evaluates_bind; [apply evaluates_call|].
    intros [x'|] s2; [apply IH|].
    apply evaluates_weaken with (j := 0%nat); [lia | apply evaluates_call].
Qed.


Lemma nlopt_iterate_static (b : Z) (dim : nat) :
  forall fuel x s,
    cur_beta (vars s) = b ->
    nlopt_iterate L fuel (objective L) dim x s
    = nlopt_iterate L fuel (fun a g => f L a g b) dim x s.
Proof.
  induction fuel as [|fuel IH]; intros x s Hb; cbn [nlopt_iterate];
    [reflexivity|].
  rewrite bind_objective, Hb.
  apply bind_ext_at. intros [val grad] _.
  apply bind_ext_at. intros [x'|] _; [|reflexivity].
  apply IH. rewrite call_vars.
  destruct (f_evaluates x (repeat 0%R dim) b s) as [H _].
  rewrite H. exact Hb.
Qed.

Ltac same_call :=
  rewrite !bind_assoc; apply bind_ext_at; intros ? _;
  rewrite ?bind_ret;
  cbn [sv_algorithm sv_n sv_lower_bounds sv_upper_bounds sv_max_objective
       sv_maxeval sv_xtol_rel].

Lemma run_solver_static (s : state W) :
  run_solver L (objective L) s
  = run_solver L (fun a g => f L a g (cur_beta (vars s))) s.
Proof.
  unfold run_solver, nlopt_new, set_lower_bounds, set_upper_bounds,
    set_max_objective, set_maxeval, set_xtol_rel.
  do 6 same_call.
  rewrite !bind_read. unfold optimize.
  cbn [sv_algorithm sv_n sv_lower_bounds sv_upper_bounds sv_max_objective
       sv_maxeval sv_xtol_rel].
  same_call.
  unfold bind at 1 3.
  rewrite nlopt_iterate_static with (b := cur_beta (vars s))
    by (rewrite !call_vars; reflexivity).
  reflexivity.
Qed.

Lemma evaluates_after {A : Type} (k : nat) (s : state W)
      (tr : list outcome) (r : run W A) :
  evaluates_at_most k s r -> evaluates_at_most k s (after tr r).
Proof. exact (fun H => H). Qed.

Lemma evaluates_same_vars {A : Type} (k : nat) (s s' : state W)
      (r : run W A) :
  vars s' = vars s -> evaluates_at_most k s' r -> evaluates_at_most k s r.
Proof. unfold evaluates_at_most. now intros ->. Qed.

Lemma evaluates_write_x (v : list R) (s : state W) :
  evaluates_at_most 0 s (write (set_x_var v) s).
Proof.
  unfold evaluates_at_most. simpl.
  split; [reflexivity | split; [tauto|]].
  exists []. rewrite app_nil_r. repeat split; apply le_n.
Qed.

Ltac quiet_leaf :=
  repeat apply evaluates_after;
  apply evaluates_weaken with (j := 0%nat); [lia|];
  apply evaluates_nothing; reflexivity.

(** One run of the optimizer evaluates the callback at most
    [update_factor] times. *)
Lemma run_solver_evaluates
      (obj : list R -> list R -> M W (list R * list R)) (s : state W) :
  (forall a g s', evaluates_at_most 1 s' (obj a g s')) ->
  evaluates_at_most update_factor s (run_solver L obj s).
Proof.
  intro Hobj.
  unfold run_solver, nlopt_new, set_lower_bounds, set_upper_bounds,
    set_max_objective, set_maxeval, set_xtol_rel.
  rewrite ?bind_assoc.
  do 6 (exec_call; [quiet_leaf|]; exec;
        cbn [sv_algorithm sv_n sv_lower_bounds sv_upper_bounds
             sv_max_objective sv_maxeval sv_xtol_rel]).
  unfold optimize.
  cbn [sv_algorithm sv_n sv_lower_bounds sv_upper_bounds sv_max_objective
       sv_maxeval sv_xtol_rel].
  rewrite ?bind_assoc. exec_call; [quiet_leaf|].
  repeat apply evaluates_after.
  match goal with
  | |- evaluates_at_most _ _ (bind _ _ ?st) =>
      apply (@evaluates_same_vars _ _ s st); [reflexivity|]
  end.
  change update_factor with (update_factor + 0)%nat.
  apply evaluates_bind; [now apply nlopt_iterate_evaluates|].
  intros xopt s'. rewrite bind_read, bind_call_pure.
  destruct (Npa.assign_all _ _) as [e|x2].
  - apply evaluates_nothing. reflexivity.
  - apply evaluates_after, evaluates_write_x.
Qed.

(** In a round that starts with [cur_beta = b], the lambda handed to
    the optimizer is [f(., ., b)] at every evaluation. *)
Lemma loop_body_round_at (iters : nat) (s : state W) :
  loop_body L iters s = round_at L (cur_beta (vars s)) s.
Proof.
  unfold loop_body, round_at.
  rewrite bind_read, !bind_print.
  set (s1 := State (world s) _).
  unfold bind at 1 3.
  rewrite (run_solver_static s1).
  change (cur_beta (vars s1)) with (cur_beta (vars s)).
  fold (bind (run_solver L (fun a g => f L a g (cur_beta (vars s))))
             (fun _ => bind (read cur_beta)
                         (fun b1 => write (set_cur_beta (b1 * beta_scale))))).
  fold (bind (run_solver L (fun a g => f L a g (cur_beta (vars s))))
             (fun _ => write (W := W)
                             (set_cur_beta (cur_beta (vars s) * beta_scale)))).
  apply bind_ext_at. intros [] _. rewrite bind_read.
  destruct (run_solver_evaluates (fun a g => f L a g (cur_beta (vars s))) s1
              (fun a g s' => f_evaluates a g (cur_beta (vars s)) s'))
    as [Hb _].
  rewrite Hb. reflexivity.
Qed.


Lemma bind_head {A B : Type} (m1 m2 : M W A) (K : A -> M W B)
      (s : state W) :
  m1 s = m2 s -> bind m1 K s = bind m2 K s.
Proof. intro H. unfold bind. now rewrite H. Qed.

Lemma beta_of_round_S (k : nat) :
  beta_of_round (S k) = (beta_of_round k * beta_scale)%Z.
Proof.
  unfold beta_of_round, beta_scale.
  rewrite Nat2Z.inj_succ, Z.pow_succ_r by lia. lia.
Qed.

Lemma beta_of_round_mono (j k : nat) :
  (j < k)%nat -> (beta_of_round j < beta_of_round k)%Z.
Proof.
  intro H. unfold beta_of_round.
  apply Z.mul_lt_mono_pos_l; [lia|].
  apply Z.pow_lt_mono_r; lia.
Qed.

Lemma round_at_beta (b : Z) (s : state W) :
  result (round_at L b s) = Ok tt ->
  cur_beta (vars (final (round_at L b s))) = (b * beta_scale)%Z.
Proof.
  unfold round_at. rewrite bind_print.
  match goal with
  | |- context [bind ?m ?K ?s1] =>
      destruct (bind_cases m K s1) as [(a & _ & ->)|(e & _ & ->)]
  end; simpl; [reflexivity | discriminate].
Qed.

(** What one round prints. *)
Lemma round_at_output (b : Z) (s : state W) :
  exists out,
    stdout (vars (final (round_at L b s)))
    = stdout (vars s) ++ CurrentBeta b :: out
    /\ (iteration_lines out <= update_factor)%nat
    /\ beta_lines out = 0%nat.
Proof.
  unfold round_at. rewrite bind_print.
  set (s1 := State (world s) _).
  destruct (run_solver_evaluates (fun a g => f L a g b) s1
              (fun a g s' => f_evaluates a g b s'))
    as (_ & _ & out & Ho & Hi & Hb).
  exists out.
  destruct (bind_cases (run_solver L (fun a g => f L a g b))
              (fun _ => write (set_cur_beta (b * beta_scale))) s1)
    as [(a & _ & ->)|(e & _ & ->)]; simpl; rewrite Ho; subst s1; simpl;
    rewrite <- app_assoc; repeat split; assumption.
Qed.

Lemma for_each_schedule (count : nat) :
  forall k0 s,
    cur_beta (vars s) = beta_of_round k0 ->
    for_each (seq k0 count) (loop_body L) s
    = for_each (seq k0 count) (fun k => round_at L (beta_of_round k)) s.
Proof.
  induction count as [|count IH]; intros k0 s Hb; cbn [seq for_each];
    [reflexivity|].
  rewrite (bind_head (loop_body L k0) (round_at L (beta_of_round k0)))
    by (rewrite loop_body_round_at, Hb; reflexivity).
  apply bind_ext_at. intros [] Hok.
  apply IH. rewrite beta_of_round_S. now apply round_at_beta.
Qed.

Lemma schedule_final (count : nat) :
  forall k0 s,
    cur_beta (vars s) = beta_of_round k0 ->
    result (for_each (seq k0 count)
              (fun k => round_at L (beta_of_round k)) s) = Ok tt ->
    cur_beta (vars (final (for_each (seq k0 count)
                             (fun k => round_at L (beta_of_round k)) s)))
    = beta_of_round (k0 + count).
Proof.
  induction count as [|count IH]; intros k0 s Hb; cbn [seq for_each].
  - intros _. simpl. now rewrite Nat.add_0_r.
  - destruct (bind_cases (round_at L (beta_of_round k0))
                (fun _ => for_each (seq (S k0) count)
                            (fun k => round_at L (beta_of_round k))) s)
      as [([] & Hok & ->)|(e & _ & ->)]; simpl; [|discriminate].
    intro H. rewrite IH; [f_equal; lia | | exact H].
    rewrite beta_of_round_S. now apply round_at_beta.
Qed.

(** What the rounds print: the beta lines of the schedule, in order,
    with at most [update_factor] iteration lines per round. *)
Lemma schedule_output (count : nat) :
  forall k0 s,
    exists out j,
      (j <= count)%nat
      /\ stdout (vars (final (for_each (seq k0 count)
                                (fun k => round_at L (beta_of_round k)) s)))
         = stdout (vars s) ++ out
      /\ filter is_beta_line out
         = map (fun k => CurrentBeta (beta_of_round k)) (seq k0 j)
      /\ (iteration_lines out <= j * update_factor)%nat
      /\ (result (for_each (seq k0 count)
                    (fun k => round_at L (beta_of_round k)) s) = Ok tt ->
          j = count).
Proof.
  induction count as [|count IH]; intros k0 s; cbn [seq for_each].
  - exists [], 0%nat. simpl. rewrite app_nil_r.
    repeat split; auto.
  - destruct (round_at_output (beta_of_round k0) s)
      as (o1 & Ho1 & Hi1 & Hb1).
    assert (Hf1 : filter is_beta_line o1 = []).
    { unfold beta_lines in Hb1. now apply length_zero_iff_nil. }
    destruct (bind_cases (round_at L (beta_of_round k0))
                (fun _ => for_each (seq (S k0) count)
                            (fun k => round_at L (beta_of_round k))) s)
      as [([] & Hok & ->)|(e & _ & ->)]; cbn [after final result trace].
    + destruct (IH (S k0) (final (round_at L (beta_of_round k0) s)))
        as (o2 & j & Hj & Ho2 & Hf2 & Hi2 & Hex).
      exists (CurrentBeta (beta_of_round k0) :: o1 ++ o2), (S j).
      split; [lia|]. split.
      { rewrite Ho2, Ho1, <- app_assoc. reflexivity. }
      split.
      { simpl. rewrite filter_app, Hf1, Hf2. reflexivity. }
      split.
      { change (iteration_lines (CurrentBeta (beta_of_round k0) :: o1 ++ o2))
          with (iteration_lines (o1 ++ o2)).
        rewrite iteration_lines_app. unfold update_factor in *. lia. }
      intro H. f_equal. now apply Hex.
    + exists (CurrentBeta (beta_of_round k0) :: o1), 1%nat.
      split; [lia|]. split; [exact Ho1|].
      split; [simpl; now rewrite Hf1|].
      split; [|discriminate].
      change (iteration_lines (CurrentBeta (beta_of_round k0) :: o1))
        with (iteration_lines o1). unfold update_factor in *. lia.
Qed.

(** Every round starts by constructing its own optimizer. *)
Lemma loop_body_constructs_solver (iters : nat) (s : state W) :
  (exists tr, trace (loop_body L iters s) = Returned "nlopt.opt" :: tr)
  \/ (exists e, trace (loop_body L iters s) = [Raised "nlopt.opt" e]).
Proof.
  unfold loop_body, run_solver, nlopt_new. exec.
  exec_call.
  - right. eexists. reflexivity.
  - left. unfold after. cbn [trace app]. eexists. reflexivity.
Qed.

Lemma cell_21_is_schedule (s : state W) :
  cell_21 L s = cell_21_schedule L s.
Proof.
  unfold cell_21, cell_21_schedule. rewrite !bind_write.
  now apply for_each_schedule.
Qed.

Lemma mapped_design_run (s : state W) :
  mapped_design L s = mapped_design_at L (cur_beta (vars s)) s.
Proof.
  unfold mapped_design, mapped_design_at. now rewrite !bind_read.
Qed.

Lemma mapped_design_vars (s : state W) :
  vars (final (mapped_design L s)) = vars s.
Proof.
  unfold mapped_design. rewrite !bind_read. apply mapping_vars.
Qed.

Lemma cell_25_vars (s : state W) :
  vars (final (cell_25 L s)) = vars s.
Proof.
  unfold cell_25, mapped_design, mapping. exec.
  exec_call; [reflexivity|]. exec.
  exec_call; [reflexivity|]. exec.
  exec_call; [reflexivity|]. exec.
  exec_call; [reflexivity|]. exec.
  destruct (Npa.divide _ _) as [e|qt]; [reflexivity|].
  exec. destruct (Npa.divide _ _) as [e|qb]; [reflexivity|].
  exec. reflexivity.
Qed.

(** The optimizer part of a round: the six configuring calls, then
    [optimize] on the optimizer they leave. *)
Lemma run_solver_constructs
      (obj : list R -> list R -> M W (list R * list R)) (s : state W) :
  run_solver L obj s
  = bind (construct_solver L)
         (fun _ => optimize_in_place L (round_solver obj)) s.
Proof.
  unfold run_solver, construct_solver, nlopt_new, set_lower_bounds,
    set_upper_bounds, set_max_objective, set_maxeval, set_xtol_rel.
  do 6 same_call. reflexivity.
Qed.

Lemma loop_body_limited_round (iters : nat) (s : state W) :
  loop_body L iters s = limited_round L (cur_beta (vars s)) s.
Proof.
  rewrite loop_body_round_at. unfold round_at, limited_round.
  rewrite !bind_print.
  rewrite <- bind_assoc. apply bind_head. apply run_solver_constructs.
Qed.

Lemma cell_25_sharpness (s : state W) :
  cell_25 L s = cell_25_at L (cur_beta (vars s)) s.
Proof.
  unfold cell_25, cell_25_at. apply bind_head. apply mapped_design_run.
Qed.

Lemma cell_28_sharpness (s : state W) :
  cell_28 L s = cell_28_at L (cur_beta (vars s)) s.
Proof.
  unfold cell_28, cell_28_at. apply bind_head. apply mapped_design_run.
Qed.

Lemma cell_25_at_returns (b : Z) (s : state W) (r : list R * list R) :
  result (cell_25_at L b s) = Ok r ->
  exists design w1 out w2,
    maps_at L b (x_var (vars s)) (world s) design w1
    /\ opt_call L [design] false w1 = (inr out, w2).
Proof.
  unfold cell_25_at, mapped_design_at, mapping. exec.
  exec_call; [discriminate|]. exec.
  exec_call; [discriminate|]. exec.
  exec_call; [discriminate|]. intros _.
  do 4 eexists. split; [|eassumption].
  unfold maps_at. do 3 eexists.
  split; [eassumption|]. split; [eassumption | reflexivity].
Qed.

Lemma cell_28_at_returns (b : Z) (s : state W) :
  result (cell_28_at L b s) = Ok tt ->
  exists design w1 w2,
    maps_at L b (x_var (vars s)) (world s) design w1
    /\ opt_update_design L [design] w1 = (inr tt, w2).
Proof.
  unfold cell_28_at, mapped_design_at, mapping. exec.
  exec_call; [discriminate|]. exec.
  exec_call; [discriminate|]. exec.
  exec_call; [discriminate|]. intros _.
  do 3 eexists. split.
  - unfold maps_at. do 3 eexists.
    split; [eassumption|]. split; [eassumption | reflexivity].
  - match goal with u : unit |- _ => destruct u end. eassumption.
Qed.

End LoopFacts.

(** What [propagates] gives: no error of the computation's own, and the
    exception of a failing library call reaches the caller unchanged. *)
Lemma propagates_meaning {W A : Type} (r : run W A) :
  propagates r ->
  (Forall returned (trace r) -> exists a, result r = Ok a)
  /\ (forall fn e, In (Raised fn e) (trace r) -> result r = Raise e).
Proof.
  unfold propagates. destruct (result r) as [a|e'].
  - intro H. split; [eauto|].
    intros fn e Hin. rewrite Forall_forall in H.
    destruct (H _ Hin).
  - intros (fn' & before & Htr & Hb). rewrite Htr. split.
    + intro H. apply Forall_app in H. destruct H as [_ H].
      inversion H as [|? ? Hr _]. destruct Hr.
    + intros fn e Hin. apply in_app_or in Hin. destruct Hin as [Hin|Hin].
      * rewrite Forall_forall in Hb. destruct (Hb _ Hin).
      * destruct Hin as [Heq|[]]. now inversion Heq.
Qed.

(** C8: [mapping], [J] and [f] handle no error.  In every run, if all
    the library calls they make return, they return; and if a library
    call raises, it is the last call made (nothing is retried or
    recovered) and its exception is the one the caller gets. *)
Theorem library_errors_propagate
        {W Axes Patch : Type} (L : Library W Axes Patch) :
  (forall x eta beta (s : state W), propagates (mapping L x eta beta s))
  /\ (forall source top bottom (s : state W),
         propagates (J source top bottom s))
  /\ (forall v gradient beta (s : state W),
         cur_iter (vars s) <> [] -> propagates (f L v gradient beta s))
  /\ (forall (A : Type) (r : run W A),
         propagates r ->
         (Forall returned (trace r) -> exists a, result r = Ok a)
         /\ (forall fn e, In (Raised fn e) (trace r) -> result r = Raise e)).
Proof.
  split; [apply mapping_propagates|].
  split; [apply JFacts.J_propagates|].
  split; [|intros A r; apply propagates_meaning].
  intros v gradient beta s Hc.
  destruct (cur_iter (vars s)) as [|k rest] eqn:E; [now destruct Hc|].
  apply (f_run L v gradient beta s E).
Qed.

(** The claim for an evaluation in which the simulator raises. *)
Lemma library_errors_propagate_witness :
  propagates (f Demo.failing_lib [] [] 4
                (State 2%nat (Globals [] [0%Z] 4%Z [] []))).
Proof.
  apply (proj1 (proj2 (proj2 (library_errors_propagate Demo.failing_lib)))).
  simpl. discriminate.
Defined.

(** C3: an evaluation of [f] that returns appends exactly one scalar to
    [evaluation_history], the maximum of the real part of the objective
    value [f0] obtained from [opt], and adds one to [cur_iter[0]]; no
    evaluation, returning or raising, removes or changes an entry
    already stored; and [f] returns whenever every library call it
    makes returns. *)
Theorem evaluation_history_append_only
        {W Axes Patch : Type} (L : Library W Axes Patch)
        (v gradient : list R) (beta : Z) (s : state W)
        (k : Z) (rest : list Z) :
  cur_iter (vars s) = k :: rest ->
  (exists more,
      evaluation_history (vars (final (f L v gradient beta s)))
      = evaluation_history (vars s) ++ more
      /\ (length more <= 1)%nat)
  /\ (forall val g',
         result (f L v gradient beta s) = Ok (val, g') ->
         exists f0 h,
           (exists m dJ_du w w',
               opt_call L [m] true w = (inr (f0, dJ_du), w'))
           /\ val = Npa.real f0
           /\ Npa.max (Npa.real f0) = inr h
           /\ evaluation_history (vars (final (f L v gradient beta s)))
              = evaluation_history (vars s) ++ [h]
           /\ cur_iter (vars (final (f L v gradient beta s)))
              = (k + 1)%Z :: rest)
  /\ (forall e,
         result (f L v gradient beta s) = Raise e ->
         evaluation_history (vars (final (f L v gradient beta s)))
         = evaluation_history (vars s)
         /\ cur_iter (vars (final (f L v gradient beta s))) = k :: rest)
  /\ (Forall returned (trace (f L v gradient beta s)) ->
      exists val g', result (f L v gradient beta s) = Ok (val, g')).
Proof.
  intro Hc. destruct (f_run L v gradient beta s Hc) as [Hp H].
  destruct (propagates_meaning _ Hp) as [Hret _].
  destruct (result (f L v gradient beta s)) as [[val g']|e] eqn:Er.
  - destruct H as (f0 & h & Hval & Hmax & Hopt & Hvars).
    rewrite Hvars. simpl. split; [|split; [|split]].
    + exists [h]. split; [reflexivity | apply le_n].
    + intros val' g'' Heq. inversion Heq; subst.
      exists f0, h. repeat split; assumption.
    + discriminate.
    + intros _. eauto.
  - rewrite H. simpl. split; [|split; [|split]].
    + exists []. rewrite app_nil_r. split; [reflexivity | apply le_0_n].
    + discriminate.
    + intros _ _. split; [reflexivity | exact Hc].
    + intro Hall. destruct (Hret Hall) as [a Ha]. discriminate.
Qed.

(** The claim for the first evaluation after cell 19. *)
Lemma evaluation_history_append_only_witness :
  exists more,
    evaluation_history (vars (final (f Demo.lib [] [] 4 Demo.start)))
    = evaluation_history (vars Demo.start) ++ more
    /\ (length more <= 1)%nat.
Proof.
  exact (proj1 (@evaluation_history_append_only _ _ _ Demo.lib [] [] 4%Z
                  Demo.start 0%Z [] eq_refl)).
Defined.

(** C1: [cur_beta] starts at 4 and is doubled after each round, so
    cell 21 runs as the schedule in which round [k] (k = 0..5) hands
    [4 * 2^k] to the objective, and an earlier round always uses a
    strictly smaller sharpness than a later one. *)
Theorem beta_schedule_increases
        {W Axes Patch : Type} (L : Library W Axes Patch) (s : state W)
        (j k : nat) :
  (j < k)%nat ->
  cell_21 L s = cell_21_schedule L s
  /\ map beta_of_round (seq 0 num_betas) = [4; 8; 16; 32; 64; 128]%Z
  /\ beta_of_round k = (4 * 2 ^ Z.of_nat k)%Z
  /\ beta_of_round (S k) = (beta_of_round k * beta_scale)%Z
  /\ (beta_of_round j < beta_of_round k)%Z.
Proof.
  intro Hjk.
  split; [apply cell_21_is_schedule|].
  split; [reflexivity|].
  split; [reflexivity|].
  split; [apply beta_of_round_S | now apply beta_of_round_mono].
Qed.

(** The claim for rounds 2 and 3. *)
Lemma beta_schedule_increases_witness :
  (beta_of_round 2 < beta_of_round 3)%Z.
Proof.
  assert (H : (2 < 3)%nat) by lia.
  exact (proj2 (proj2 (proj2 (proj2
    (beta_schedule_increases Demo.lib Demo.start H))))).
Defined.

(** C6: the loop makes [num_betas = 6] rounds and stops.  Every round
    prints its beta line once and runs as [limited_round]: it
    constructs its own optimizer with [nlopt.opt], configures it with
    [set_maxeval(update_factor)], so that [optimize] runs under a limit
    of 12 evaluations (an optimizer whose [maxeval] was left at 0 would
    run under the library's own limit instead), and evaluates [f] at
    most 12 times; cell 21 therefore evaluates [f] at most 72 times,
    each evaluation printing one iteration line.  When cell 21
    completes, exactly 6 rounds were made. *)
Theorem continuation_loop_bounded
        {W Axes Patch : Type} (L : Library W Axes Patch) (s : state W)
        (iters : nat) (v gradient : list R) (beta : Z)
        (k : Z) (rest : list Z) :
  cur_iter (vars s) = k :: rest ->
  num_betas = 6%nat /\ update_factor = 12%nat
  /\ (exists out,
         stdout (vars (final (cell_21 L s))) = stdout (vars s) ++ out
         /\ (beta_lines out <= 6)%nat /\ (iteration_lines out <= 72)%nat
         /\ (result (cell_21 L s) = Ok tt ->
             filter is_beta_line out
             = map CurrentBeta [4; 8; 16; 32; 64; 128]%Z))
  /\ (exists out,
         stdout (vars (final (loop_body L iters s)))
         = stdout (vars s) ++ CurrentBeta (cur_beta (vars s)) :: out
         /\ (iteration_lines out <= 12)%nat /\ beta_lines out = 0%nat)
  /\ ((exists tr, trace (loop_body L iters s) = Returned "nlopt.opt" :: tr)
      \/ (exists e, trace (loop_body L iters s) = [Raised "nlopt.opt" e]))
  /\ stdout (vars (final (f L v gradient beta s)))
     = stdout (vars s) ++ [CurrentIteration (k + 1)]
  /\ cur_iter (vars (final (f L v gradient beta s))) <> []
  /\ loop_body L iters s = limited_round L (cur_beta (vars s)) s
  /\ (forall obj, sv_maxeval (round_solver obj) = 12%nat
                  /\ evaluation_limit L (round_solver obj) = 12%nat)
  /\ (forall obj x (s0 : state W),
         optimize L (round_solver obj) x s0
         = bind (call "nlopt.opt.optimize" (nlopt_start L n x))
                (fun _ => nlopt_iterate L 12 obj n x) s0)
  /\ (forall sv : Solver W,
         sv_maxeval sv = 0%nat -> evaluation_limit L sv = nlopt_unlimited L).
Proof.
  intro Hc.
  split; [reflexivity | split; [reflexivity|]].
  split; [|split; [|split; [apply loop_body_constructs_solver|]]].
  - rewrite cell_21_is_schedule. unfold cell_21_schedule.
    rewrite !bind_write.
    match goal with
    | |- context [for_each _ _ ?s0] =>
        destruct (schedule_output L num_betas 0 s0)
          as (out & j & Hj & Ho & Hf & Hi & Hex)
    end.
    exists out. split; [exact Ho|].
    split; [unfold beta_lines; rewrite Hf, length_map, length_seq; exact Hj|].
    split; [unfold update_factor, num_betas in *; lia|].
    intro Hok. rewrite Hf, (Hex Hok). reflexivity.
  - rewrite loop_body_round_at. apply round_at_output.
  - assert (Hf : stdout (vars (final (f L v gradient beta s)))
                 = stdout (vars s) ++ [CurrentIteration (k + 1)]
                 /\ cur_iter (vars (final (f L v gradient beta s))) <> []).
    { destruct (f_run L v gradient beta s Hc) as [_ H].
      destruct (result (f L v gradient beta s)) as [[val g']|e].
      + destruct H as (f0 & h & _ & _ & _ & ->). simpl.
        split; [reflexivity | discriminate].
      + rewrite H. simpl. split; [reflexivity | rewrite Hc; discriminate]. }
    destruct Hf as [Hf1 Hf2].
    split; [exact Hf1|]. split; [exact Hf2|].
    split; [apply loop_body_limited_round|].
    split; [intro obj; split; reflexivity|].
    split; [intros obj x s0; reflexivity|].
    intros sv Hsv. unfold evaluation_limit. now rewrite Hsv.
Qed.

(** The claim from the state after cell 19, for a library that keeps
    the optimizer going until [maxeval] stops it. *)
Lemma continuation_loop_bounded_witness :
  exists out,
    stdout (vars (final (cell_21 Demo.lib Demo.start)))
    = stdout (vars Demo.start) ++ out
    /\ (beta_lines out <= 6)%nat /\ (iteration_lines out <= 72)%nat
    /\ (result (cell_21 Demo.lib Demo.start) = Ok tt ->
        filter is_beta_line out
        = map CurrentBeta [4; 8; 16; 32; 64; 128]%Z).
Proof.
  exact (proj1 (proj2 (proj2
    (@continuation_loop_bounded _ _ _ Demo.lib Demo.start 0%nat [] [] 4%Z
       0%Z [] eq_refl)))).
Defined.

(** C10: when the loop has finished, [cur_beta] is [4 * 2^6 = 256].
    Run on the globals as cell 21 left them, the final evaluation
    (cell 25) and the final design update (cell 28) are the cells with
    sharpness 256: when they return, the libraries have filtered [x],
    projected the result with sharpness 256 and handed the flattened
    design to [opt] and to [opt.update_design]; cell 25 changes no
    global, so that cell 28 finds them the same.  256 is greater than
    every sharpness used in a round, the largest being 128. *)
Theorem final_sharpness
        {W Axes Patch : Type} (L : Library W Axes Patch) (s s' : state W) :
  result (cell_21 L s) = Ok tt ->
  vars s' = vars (final (cell_21 L s)) ->
  cur_beta (vars (final (cell_21 L s))) = 256%Z
  /\ cell_25 L s' = cell_25_at L 256 s'
  /\ cell_28 L s' = cell_28_at L 256 s'
  /\ vars (final (cell_25 L s')) = vars s'
  /\ (forall r,
         result (cell_25 L s') = Ok r ->
         exists design w1 out w2,
           maps_at L 256 (x_var (vars (final (cell_21 L s)))) (world s')
             design w1
           /\ opt_call L [design] false w1 = (inr out, w2))
  /\ (result (cell_28 L s') = Ok tt ->
      exists design w1 w2,
        maps_at L 256 (x_var (vars (final (cell_21 L s)))) (world s')
          design w1
        /\ opt_update_design L [design] w1 = (inr tt, w2))
  /\ Forall (fun b => (b < 256)%Z) (map beta_of_round (seq 0 num_betas))
  /\ beta_of_round (num_betas - 1) = 128%Z.
Proof.
  intros Hok Hv.
  assert (Hb : cur_beta (vars (final (cell_21 L s))) = 256%Z).
  { revert Hok. rewrite cell_21_is_schedule. unfold cell_21_schedule.
    rewrite !bind_write.
    match goal with
    | |- result (for_each _ _ ?s0) = _ -> _ =>
        intro Hok;
        rewrite (schedule_final L num_betas 0 s0 eq_refl Hok)
    end.
    reflexivity. }
  assert (Hb' : cur_beta (vars s') = 256%Z) by (rewrite Hv; exact Hb).
  assert (E25 : cell_25 L s' = cell_25_at L 256 s')
    by (rewrite cell_25_sharpness, Hb'; reflexivity).
  assert (E28 : cell_28 L s' = cell_28_at L 256 s')
    by (rewrite cell_28_sharpness, Hb'; reflexivity).
  split; [exact Hb|].
  split; [exact E25|].
  split; [exact E28|].
  split; [apply cell_25_vars|].
  split; [|split; [|split; [|reflexivity]]].
  - intros r Hr. rewrite E25 in Hr. rewrite <- Hv.
    exact (cell_25_at_returns L 256 s' Hr).
  - intro Hr. rewrite E28 in Hr. rewrite <- Hv.
    exact (cell_28_at_returns L 256 s' Hr).
  - repeat constructor.
Qed.

(** The claim for a run of cell 21 that completes, cell 25 following
    directly. *)
Lemma final_sharpness_witness :
  result (cell_21 Demo.lib Demo.start) = Ok tt
  /\ cur_beta (vars (final (cell_21 Demo.lib Demo.start))) = 256%Z
  /\ cell_28 Demo.lib (final (cell_21 Demo.lib Demo.start))
     = cell_28_at Demo.lib 256 (final (cell_21 Demo.lib Demo.start)).
Proof.
  assert (H : result (cell_21 Demo.lib Demo.start) = Ok tt) by reflexivity.
  split; [exact H|].
  split.
  - exact (proj1 (final_sharpness Demo.lib Demo.start
                    (final (cell_21 Demo.lib Demo.start)) H eq_refl)).
  - exact (proj1 (proj2 (proj2 (final_sharpness Demo.lib Demo.start
                    (final (cell_21 Demo.lib Demo.start)) H eq_refl)))).
Defined.

(* ================================================================= *)
(** * Further properties of the notebook's code *)

(** ** The sampling grid *)

Module GridFacts.
Import Np NpFacts MaskFacts.

Lemma inject_nat_pos (k : nat) : (0 < k)%nat -> 0 < inject_Z (Z.of_nat k).
Proof.
  intro H. change 0 with (inject_Z 0). rewrite <- Zlt_Qlt. lia.
Qed.

(** Every sample, the overwritten last one included, is
    [start + i * step]. *)
Lemma linspace_affine (a b : Q) (k i : nat) :
  (2 <= k)%nat -> (i < k)%nat ->
  nth i (linspace a b k) 0
  == a + inject_Z (Z.of_nat i) * ((b - a) / inject_Z (Z.of_nat (k - 1))).
Proof.
  intros Hk Hi. destruct k as [|[|d]]; try lia.
  replace (S (S d) - 1)%nat with (S d) by lia.
  pose proof (@inject_nat_pos (S d) ltac:(lia)) as Hd.
  destruct (Nat.eq_dec i (S d)) as [->|Hne].
  - rewrite nth_linspace_last. field. qlra.
  - rewrite nth_linspace_inner by lia. ring.
Qed.

Lemma linspace_spacing (a b : Q) (k i : nat) :
  (S i < k)%nat ->
  nth (S i) (linspace a b k) 0 - nth i (linspace a b k) 0
  == (b - a) / inject_Z (Z.of_nat (k - 1)).
Proof.
  intro Hi. rewrite !linspace_affine by lia.
  rewrite Nat2Z.inj_succ. unfold Z.succ. rewrite inject_Z_plus.
  change (inject_Z 1) with 1. ring.
Qed.

Lemma linspace_range (a b : Q) (k i : nat) :
  a <= b -> (2 <= k)%nat -> (i < k)%nat ->
  a <= nth i (linspace a b k) 0 /\ nth i (linspace a b k) 0 <= b.
Proof.
  intros Hab Hk Hi. rewrite linspace_affine by assumption.
  pose proof (@inject_nat_pos (k - 1) ltac:(lia)) as Hd.
  assert (Hi0 : 0 <= inject_Z (Z.of_nat i))
    by (change 0 with (inject_Z 0); rewrite <- Zle_Qle; lia).
  assert (Hik : inject_Z (Z.of_nat i) <= inject_Z (Z.of_nat (k - 1)))
    by (rewrite <- Zle_Qle; lia).
  set (qi := inject_Z (Z.of_nat i)) in *.
  set (qd := inject_Z (Z.of_nat (k - 1))) in *.
  assert (E : qi * ((b - a) / qd) == (qi / qd) * (b - a)) by (field; qlra).
  assert (Hf0 : 0 <= qi / qd).
  { apply Qle_shift_div_l; [exact Hd | rewrite Qmult_0_l; exact Hi0]. }
  assert (Hf1 : qi / qd <= 1).
  { apply Qle_shift_div_r; [exact Hd | rewrite Qmult_1_l; exact Hik]. }
  rewrite E. set (t := qi / qd) in *.
  assert (H0 : 0 <= t * (b - a)) by (apply Qmult_le_0_compat; qlra).
  assert (H1 : t * (b - a) <= 1 * (b - a))
    by (apply Qmult_le_compat_r; qlra).
  set (u := t * (b - a)) in *. split; qlra.
Qed.

(** On an interval centred at 0 the samples are mirror images of each
    other. *)
Lemma linspace_mirror (a b : Q) (k i : nat) :
  a + b == 0 -> (2 <= k)%nat -> (i < k)%nat ->
  nth (k - 1 - i) (linspace a b k) 0 == - nth i (linspace a b k) 0.
Proof.
  intros Hab Hk Hi. rewrite !linspace_affine by lia.
  pose proof (@inject_nat_pos (k - 1) ltac:(lia)) as Hd.
  replace (Z.of_nat (k - 1 - i)) with (Z.of_nat (k - 1) - Z.of_nat i)%Z
    by lia.
  unfold Zminus. rewrite inject_Z_plus, inject_Z_opp.
  set (qi := inject_Z (Z.of_nat i)) in *.
  set (qd := inject_Z (Z.of_nat (k - 1))) in *.
  assert (Eb : b == - a) by qlra.
  rewrite Eb. field. qlra.
Qed.

End GridFacts.

(** ** More on the masks, the bounds and the geometry *)

Module MaskMore.
Import Np NpFacts MaskFacts BoundFacts GridFacts.

(** Linear arithmetic over [Q] with divisions by numerals. *)
Ltac qarith :=
  unfold Qdiv in *; cbn [Qinv Qnum Qden] in *; Lqa.lra.

Lemma nth_flatten_outer {A : Type} (p : Q -> Q -> A) (xs ys : list Q)
      (i j : nat) (d : A) :
  (i < length xs)%nat -> (j < length ys)%nat ->
  nth (i * length ys + j) (flatten (outer p xs ys)) d
  = p (nth i xs 0) (nth j ys 0).
Proof.
  unfold flatten, outer. revert i.
  induction xs as [|x xs IH]; intros i Hi Hj; simpl in Hi; [lia|].
  cbn [map concat]. destruct i as [|i].
  - rewrite app_nth1 by (rewrite length_map; simpl; lia).
    simpl. apply nth_map_lt. exact Hj.
  - rewrite app_nth2 by (rewrite length_map; simpl; lia).
    rewrite length_map.
    replace (S i * length ys + j - length ys)%nat
      with (i * length ys + j)%nat by (simpl; lia).
    cbn [nth]. apply IH; [lia | exact Hj].
Qed.

Lemma flat_index_lt (i j : nat) :
  (i < Nx)%nat -> (j < Ny)%nat -> (i * Ny + j < Nx * Ny)%nat.
Proof. intros Hi Hj. nia. Qed.

Lemma flat_Si (i j : nat) :
  (i < Nx)%nat -> (j < Ny)%nat ->
  nth (i * Ny + j) (flatten Si_mask) false
  = Si_at (nth i x_g 0) (nth j y_g 0).
Proof.
  intros Hi Hj. rewrite Si_mask_outer. rewrite <- length_y_g at 1.
  apply nth_flatten_outer; [now rewrite length_x_g | now rewrite length_y_g].
Qed.

Lemma flat_SiO2 (i j : nat) :
  (i < Nx)%nat -> (j < Ny)%nat ->
  nth (i * Ny + j) (flatten SiO2_mask) false
  = if Si_at (nth i x_g 0) (nth j y_g 0) then false
    else border_at (nth i x_g 0) (nth j y_g 0).
Proof.
  intros Hi Hj. rewrite SiO2_mask_outer. rewrite <- length_y_g at 1.
  apply (nth_flatten_outer
           (fun x y => if Si_at x y then false else border_at x y));
    [now rewrite length_x_g | now rewrite length_y_g].
Qed.

(** The bounds and the initial guess at grid point [(i, j)]. *)
Lemma flat_values (i j : nat) :
  (i < Nx)%nat -> (j < Ny)%nat ->
  nth (i * Ny + j) lb 0
  = (if Si_at (nth i x_g 0) (nth j y_g 0) then 1 else 0)
  /\ nth (i * Ny + j) ub 0
     = (if Si_at (nth i x_g 0) (nth j y_g 0) then 1
        else if border_at (nth i x_g 0) (nth j y_g 0) then 0 else 1)
  /\ nth (i * Ny + j) x_init 0
     = (if Si_at (nth i x_g 0) (nth j y_g 0) then 1
        else if border_at (nth i x_g 0) (nth j y_g 0) then 0 else 1 * 0.5).
Proof.
  intros Hi Hj. pose proof (flat_index_lt Hi Hj) as Hidx.
  pose proof length_flat_Si as LS. pose proof length_flat_SiO2 as LO.
  pose proof (flat_Si Hi Hj) as ES. pose proof (flat_SiO2 Hi Hj) as EO.
  set (idx := (i * Ny + j)%nat) in *.
  assert (Lhalf : length (map (fun v => v * 0.5) (ones n)) = (Nx * Ny)%nat)
    by (unfold ones; rewrite length_map, repeat_length; reflexivity).
  assert (Lx1 : length (mask_assign (map (fun v => v * 0.5) (ones n))
                          (flatten Si_mask) 1) = (Nx * Ny)%nat)
    by (rewrite length_mask_assign; congruence).
  assert (Lzero : length (zeros (Nx * Ny)) = (Nx * Ny)%nat)
    by apply repeat_length.
  assert (Lone : length (ones (Nx * Ny)) = (Nx * Ny)%nat)
    by apply repeat_length.
  split; [|split].
  - unfold lb. rewrite nth_mask_assign by lia. rewrite ES.
    unfold zeros. rewrite nth_repeat. reflexivity.
  - unfold ub. rewrite nth_mask_assign by lia. rewrite EO.
    unfold ones. rewrite (nth_repeat_lt 1 0 Hidx).
    destruct (Si_at (nth i x_g 0) (nth j y_g 0)),
      (border_at (nth i x_g 0) (nth j y_g 0)); reflexivity.
  - unfold x_init. rewrite nth_mask_assign by lia.
    rewrite nth_mask_assign by lia. rewrite ES, EO.
    rewrite (nth_map_lt _ _ _ 1)
      by (unfold ones; rewrite repeat_length; exact Hidx).
    unfold ones. rewrite nth_repeat.
    destruct (Si_at (nth i x_g 0) (nth j y_g 0)),
      (border_at (nth i x_g 0) (nth j y_g 0)); reflexivity.
Qed.

Lemma Si_at_mirror (x y y' : Q) : y' == - y -> Si_at x y' = Si_at x y.
Proof.
  intro H. apply eq_true_iff_eq. rewrite !Si_at_iff.
  unfold within_waveguide.
  assert (E0 : Qabs (y' - 0) == Qabs (y - 0)).
  { rewrite <- (Qabs_opp (y - 0)). apply Qabs_wd. rewrite H. ring. }
  assert (E1 : Qabs (y' - arm_separation / 2)
               == Qabs (y - - arm_separation / 2)).
  { rewrite <- (Qabs_opp (y - - arm_separation / 2)). apply Qabs_wd.
    rewrite H. field. }
  assert (E2 : Qabs (y' - - arm_separation / 2)
               == Qabs (y - arm_separation / 2)).
  { rewrite <- (Qabs_opp (y - arm_separation / 2)). apply Qabs_wd.
    rewrite H. field. }
  rewrite E0, E1, E2. tauto.
Qed.

Lemma border_at_mirror (x y y' : Q) :
  y' == - y -> border_at x y' = border_at x y.
Proof.
  intro H. apply eq_true_iff_eq. rewrite !border_at_iff.
  unfold on_left_edge, on_right_edge, on_bottom_edge, on_top_edge.
  assert (A : y' == - design_region_height / 2
              <-> y == design_region_height / 2).
  { rewrite H. unfold design_region_height. split; intro; qarith. }
  assert (B : y' == design_region_height / 2
              <-> y == - design_region_height / 2).
  { rewrite H. unfold design_region_height. split; intro; qarith. }
  rewrite A, B. tauto.
Qed.

Lemma y_g_mirror (j : nat) :
  (j < Ny)%nat -> nth (Ny - 1 - j) y_g 0 == - nth j y_g 0.
Proof.
  intro Hj. apply linspace_mirror; [reflexivity | exact Ny_ge_2 | exact Hj].
Qed.

(** The silicon blocks of [geometry], as intervals. *)
Lemma in_waveguide_iff (x y : Q) :
  in_waveguide x y = true <->
  (- (13 # 4) <= x <= 1 # 2 /\ - (1 # 4) <= y <= 1 # 4)
  \/ (- (1 # 2) <= x <= 13 # 4 /\ 1 # 4 <= y <= 3 # 4)
  \/ (- (1 # 2) <= x <= 13 # 4 /\ - (3 # 4) <= y <= - (1 # 4)).
Proof.
  unfold in_waveguide, geometry, block_contains, is_silicon.
  cbn [existsb b_material b_center b_size v_x v_y andb orb].
  rewrite !orb_false_r, !orb_true_iff, !andb_true_iff, !Qle_bool_iff,
    !Qabs_Qle_condition.
  unfold Sx, pml_size, waveguide_length, design_region_width,
    waveguide_width, arm_separation.
  split; intros [[H1 H2]|[[H1 H2]|[H1 H2]]];
    [left | right; left | right; right | left | right; left | right; right];
    split; split; qarith.
Qed.

End MaskMore.

Module GeometryFacts.
Import Np NpFacts MaskFacts MaskMore.

Lemma Si_at_waveguide (x y : Q) :
  Si_at x y = true <->
  (on_left_edge x \/ on_right_edge x) /\ in_waveguide x y = true.
Proof.
  rewrite Si_at_iff, in_waveguide_iff.
  unfold on_left_edge, on_right_edge, within_waveguide.
  rewrite !Qabs_Qle_condition.
  unfold design_region_width, waveguide_width, arm_separation.
  split.
  - intros [[Hx Hy]|[Hx [Hy|Hy]]].
    + split; [left; exact Hx | left; split; split; qarith].
    + split; [right; exact Hx | right; left; split; split; qarith].
    + split; [right; exact Hx | right; right; split; split; qarith].
  - intros [[Hx|Hx] [[H1 H2]|[[H1 H2]|[H1 H2]]]].
    + left. split; [exact Hx | split; qarith].
    + exfalso. qarith.
    + exfalso. qarith.
    + exfalso. qarith.
    + right. split; [exact Hx | left; split; qarith].
    + right. split; [exact Hx | right; split; qarith].
Qed.

Lemma border_waveguide_side (x y : Q) :
  border_at x y = true -> in_waveguide x y = true ->
  on_left_edge x \/ on_right_edge x.
Proof.
  rewrite border_at_iff, in_waveguide_iff.
  unfold on_left_edge, on_right_edge, on_bottom_edge, on_top_edge,
    design_region_height.
  intros [Hx|[Hx|[Hy|Hy]]] Hg; [left; exact Hx | right; exact Hx | |];
    exfalso; destruct Hg as [[_ H]|[[_ H]|[_ H]]]; qarith.
Qed.

Lemma grid_in_design_region (i j : nat) :
  (i < Nx)%nat -> (j < Ny)%nat ->
  block_contains
    (MkBlock design_region_center design_variables design_region_size
       e2_default) (nth i x_g 0) (nth j y_g 0) = true.
Proof.
  intros Hi Hj.
  destruct (GridFacts.linspace_range
              (a := - design_region_width / 2) (b := design_region_width / 2)
              (k := Nx) (i := i)) as [Hx1 Hx2];
    [apply Qlt_le_weak, width_interval | exact Nx_ge_2 | exact Hi |].
  destruct (GridFacts.linspace_range
              (a := - design_region_height / 2)
              (b := design_region_height / 2)
              (k := Ny) (i := j)) as [Hy1 Hy2];
    [apply Qlt_le_weak, height_interval | exact Ny_ge_2 | exact Hj |].
  fold x_g in Hx1, Hx2. fold y_g in Hy1, Hy2.
  unfold block_contains.
  cbn [b_center b_size design_region_center design_region_size v_x v_y].
  rewrite andb_true_iff, !Qle_bool_iff, !Qabs_Qle_condition.
  set (x := nth i x_g 0) in *. set (y := nth j y_g 0) in *.
  unfold design_region_width, design_region_height in *.
  repeat split; qarith.
Qed.

End GeometryFacts.

(** X1: the masks are mirror symmetric about the axis [y = 0]: the
    entries in columns [j] and [Ny - 1 - j] agree, for the three masks
    and hence for the initial design and both bounds. *)
Theorem masks_mirror_symmetric (i j : nat) :
  (i < Nx)%nat -> (j < Ny)%nat ->
  Np.get2 Si_mask i (Ny - 1 - j) false = Np.get2 Si_mask i j false
  /\ Np.get2 border_mask i (Ny - 1 - j) false
     = Np.get2 border_mask i j false
  /\ Np.get2 SiO2_mask i (Ny - 1 - j) false = Np.get2 SiO2_mask i j false
  /\ nth (i * Ny + (Ny - 1 - j)) x_init 0 = nth (i * Ny + j) x_init 0
  /\ nth (i * Ny + (Ny - 1 - j)) lb 0 = nth (i * Ny + j) lb 0
  /\ nth (i * Ny + (Ny - 1 - j)) ub 0 = nth (i * Ny + j) ub 0.
Proof.
  intros Hi Hj.
  assert (Hj' : (Ny - 1 - j < Ny)%nat) by lia.
  pose proof (MaskMore.y_g_mirror Hj) as Hy.
  pose proof (MaskMore.Si_at_mirror (nth i x_g 0) Hy) as HS.
  pose proof (MaskMore.border_at_mirror (nth i x_g 0) Hy) as HB.
  destruct (MaskMore.flat_values Hi Hj) as (El & Eu & Ex).
  destruct (MaskMore.flat_values Hi Hj') as (El' & Eu' & Ex').
  rewrite El, Eu, Ex, El', Eu', Ex', HS, HB.
  rewrite MaskFacts.Si_mask_outer, MaskFacts.border_mask_outer,
    MaskFacts.SiO2_mask_outer.
  rewrite !NpFacts.get2_outer
    by (rewrite ?MaskFacts.length_x_g, ?MaskFacts.length_y_g; assumption).
  rewrite HS, HB. repeat split; reflexivity.
Qed.

Lemma masks_mirror_symmetric_witness :
  Np.get2 Si_mask 0 (Ny - 1 - 120) false = Np.get2 Si_mask 0 120 false.
Proof.
  assert (Hi : (0 < Nx)%nat) by (change Nx with 250%nat; lia).
  assert (Hj : (120 < Ny)%nat) by (change Ny with 250%nat; lia).
  exact (proj1 (masks_mirror_symmetric Hi Hj)).
Defined.

(** X2: the grid is strictly increasing and uniform up to rounding.
    [np.linspace] computes the samples in floating point, so they agree
    with the exact values [x_g], [y_g] only up to a rounding error.  For
    any arrays within [eps] of the exact samples, with [eps] below
    half the step [2.5/249], consecutive coordinates differ by
    the step up to [2 * eps] and increase strictly, and every
    coordinate lies in the design region up to [eps]. *)
Theorem grid_spacing_within_tolerance (gx gy : list Q) (eps : Q) (i j : nat) :
  (forall k, (k < Nx)%nat -> Qabs (nth k gx 0 - nth k x_g 0) <= eps) ->
  (forall k, (k < Ny)%nat -> Qabs (nth k gy 0 - nth k y_g 0) <= eps) ->
  2 * eps < 5 # 498 ->
  (S i < Nx)%nat -> (S j < Ny)%nat ->
  design_region_width / inject_Z (Z.of_nat (Nx - 1)) == 5 # 498
  /\ design_region_height / inject_Z (Z.of_nat (Ny - 1)) == 5 # 498
  /\ Qabs (nth (S i) gx 0 - nth i gx 0 - (5 # 498)) <= 2 * eps
  /\ Qabs (nth (S j) gy 0 - nth j gy 0 - (5 # 498)) <= 2 * eps
  /\ nth i gx 0 < nth (S i) gx 0
  /\ nth j gy 0 < nth (S j) gy 0
  /\ - design_region_width / 2 - eps <= nth i gx 0
  /\ nth (S i) gx 0 <= design_region_width / 2 + eps
  /\ - design_region_height / 2 - eps <= nth j gy 0
  /\ nth (S j) gy 0 <= design_region_height / 2 + eps.
Proof.
  intros Hgx Hgy Heps Hi Hj.
  assert (Ex : nth (S i) x_g 0 - nth i x_g 0 == 5 # 498).
  { unfold x_g. rewrite GridFacts.linspace_spacing by exact Hi.
    change (inject_Z (Z.of_nat (Nx - 1))) with (249 # 1). reflexivity. }
  assert (Ey : nth (S j) y_g 0 - nth j y_g 0 == 5 # 498).
  { unfold y_g. rewrite GridFacts.linspace_spacing by exact Hj.
    change (inject_Z (Z.of_nat (Ny - 1))) with (249 # 1). reflexivity. }
  destruct (GridFacts.linspace_range
              (a := - design_region_width / 2) (b := design_region_width / 2)
              (k := Nx) (i := i)) as [Hx1 _];
    [apply Qlt_le_weak, MaskFacts.width_interval | exact MaskFacts.Nx_ge_2
     | lia |].
  destruct (GridFacts.linspace_range
              (a := - design_region_width / 2) (b := design_region_width / 2)
              (k := Nx) (i := S i)) as [_ Hx2];
    [apply Qlt_le_weak, MaskFacts.width_interval | exact MaskFacts.Nx_ge_2
     | lia |].
  destruct (GridFacts.linspace_range
              (a := - design_region_height / 2)
              (b := design_region_height / 2)
              (k := Ny) (i := j)) as [Hy1 _];
    [apply Qlt_le_weak, MaskFacts.height_interval | exact MaskFacts.Ny_ge_2
     | lia |].
  destruct (GridFacts.linspace_range
              (a := - design_region_height / 2)
              (b := design_region_height / 2)
              (k := Ny) (i := S j)) as [_ Hy2];
    [apply Qlt_le_weak, MaskFacts.height_interval | exact MaskFacts.Ny_ge_2
     | lia |].
  fold x_g in Hx1, Hx2. fold y_g in Hy1, Hy2.
  pose proof (Hgx i ltac:(lia)) as Gx0. pose proof (Hgx (S i) Hi) as Gx1.
  pose proof (Hgy j ltac:(lia)) as Gy0. pose proof (Hgy (S j) Hj) as Gy1.
  apply Qabs_Qle_condition in Gx0, Gx1, Gy0, Gy1.
  split; [reflexivity|]. split; [reflexivity|].
  set (x0 := nth i x_g 0) in *. set (x1 := nth (S i) x_g 0) in *.
  set (y0 := nth j y_g 0) in *. set (y1 := nth (S j) y_g 0) in *.
  set (a0 := nth i gx 0) in *. set (a1 := nth (S i) gx 0) in *.
  set (b0 := nth j gy 0) in *. set (b1 := nth (S j) gy 0) in *.
  split; [apply Qabs_Qle_condition; split; Lqa.lra|].
  split; [apply Qabs_Qle_condition; split; Lqa.lra|].
  repeat split; Lqa.lra.
Qed.

(** The property for the exact samples themselves. *)
Lemma grid_spacing_within_tolerance_witness :
  nth 0 x_g 0 < nth 1 x_g 0.
Proof.
  assert (Hi : (1 < Nx)%nat) by (change Nx with 250%nat; lia).
  assert (Hj : (1 < Ny)%nat) by (change Ny with 250%nat; lia).
  assert (Hx : forall k, (k < Nx)%nat -> Qabs (nth k x_g 0 - nth k x_g 0) <= 0).
  { intros k _. apply Qabs_Qle_condition. split; Lqa.lra. }
  assert (Hy : forall k, (k < Ny)%nat -> Qabs (nth k y_g 0 - nth k y_g 0) <= 0).
  { intros k _. apply Qabs_Qle_condition. split; Lqa.lra. }
  assert (He : 2 * 0 < 5 # 498) by reflexivity.
  exact (proj1 (proj2 (proj2 (proj2 (proj2
    (grid_spacing_within_tolerance x_g y_g Hx Hy He Hi Hj)))))).
Defined.

(** X3: the bounds leave exactly the interior of the grid free.  On the
    border (first or last row or column) the lower bound, the initial
    value and the upper bound coincide; everywhere else the bounds are
    0 and 1 and the initial value is 0.5. *)
Theorem bounds_pin_border (i j : nat) :
  (i < Nx)%nat -> (j < Ny)%nat ->
  (Np.get2 border_mask i j false = true <->
   i = 0%nat \/ i = (Nx - 1)%nat \/ j = 0%nat \/ j = (Ny - 1)%nat)
  /\ (Np.get2 border_mask i j false = true ->
      nth (i * Ny + j) lb 0 = nth (i * Ny + j) x_init 0
      /\ nth (i * Ny + j) x_init 0 = nth (i * Ny + j) ub 0)
  /\ (Np.get2 border_mask i j false = false ->
      nth (i * Ny + j) lb 0 = 0 /\ nth (i * Ny + j) ub 0 = 1
      /\ nth (i * Ny + j) x_init 0 == 0.5).
Proof.
  intros Hi Hj.
  destruct (MaskMore.flat_values Hi Hj) as (El & Eu & Ex).
  rewrite El, Eu, Ex.
  rewrite MaskFacts.border_mask_outer.
  rewrite !NpFacts.get2_outer
    by (rewrite ?MaskFacts.length_x_g, ?MaskFacts.length_y_g; assumption).
  pose proof (@MaskFacts.Si_at_border (nth i x_g 0) (nth j y_g 0)) as Hsb.
  split; [|split].
  - rewrite MaskFacts.border_at_iff.
    rewrite (MaskFacts.left_edge_iff Hi), (MaskFacts.right_edge_iff Hi),
      (MaskFacts.bottom_edge_iff Hj), (MaskFacts.top_edge_iff Hj).
    reflexivity.
  - intro Hb. rewrite Hb.
    destruct (Si_at (nth i x_g 0) (nth j y_g 0)); split; reflexivity.
  - intro Hb. rewrite Hb.
    destruct (Si_at (nth i x_g 0) (nth j y_g 0));
      [specialize (Hsb eq_refl); congruence|].
    repeat split; reflexivity.
Qed.

Lemma bounds_pin_border_witness :
  Np.get2 border_mask 0 5 false = true
  /\ nth (0 * Ny + 5) lb 0 = nth (0 * Ny + 5) x_init 0.
Proof.
  assert (Hi : (0 < Nx)%nat) by (change Nx with 250%nat; lia).
  assert (Hj : (5 < Ny)%nat) by (change Ny with 250%nat; lia).
  assert (Hb : Np.get2 border_mask 0 5 false = true)
    by (apply (proj1 (bounds_pin_border Hi Hj)); left; reflexivity).
  split; [exact Hb|].
  exact (proj1 (proj1 (proj2 (bounds_pin_border Hi Hj)) Hb)).
Defined.

(** X4: the masks agree with the geometry of cell 13.  [Si_mask] marks
    exactly the points of the first and last grid rows (the left and
    right edges of the design region) that lie in a silicon block;
    [SiO2_mask] marks exactly the border points that lie in none; and
    every grid point lies in the design-region blocks. *)
Theorem masks_match_geometry (i j : nat) :
  (i < Nx)%nat -> (j < Ny)%nat ->
  (Np.get2 Si_mask i j false = true <->
   (i = 0%nat \/ i = (Nx - 1)%nat)
   /\ in_waveguide (nth i x_g 0) (nth j y_g 0) = true)
  /\ (Np.get2 SiO2_mask i j false = true <->
      Np.get2 border_mask i j false = true
      /\ in_waveguide (nth i x_g 0) (nth j y_g 0) = false)
  /\ Forall (fun b =>
               b_material b = design_variables ->
               block_contains b (nth i x_g 0) (nth j y_g 0) = true)
       geometry.
Proof.
  intros Hi Hj.
  rewrite MaskFacts.Si_mask_outer, MaskFacts.border_mask_outer,
    MaskFacts.SiO2_mask_outer.
  rewrite !NpFacts.get2_outer
    by (rewrite ?MaskFacts.length_x_g, ?MaskFacts.length_y_g; assumption).
  pose proof (GeometryFacts.Si_at_waveguide (nth i x_g 0) (nth j y_g 0))
    as HS.
  pose proof (@GeometryFacts.border_waveguide_side
                (nth i x_g 0) (nth j y_g 0)) as HBG.
  pose proof (@MaskFacts.Si_at_border (nth i x_g 0) (nth j y_g 0)) as Hsb.
  pose proof (GeometryFacts.grid_in_design_region Hi Hj) as Hin.
  split; [|split].
  - rewrite HS, (MaskFacts.left_edge_iff Hi), (MaskFacts.right_edge_iff Hi).
    reflexivity.
  - destruct (Si_at (nth i x_g 0) (nth j y_g 0)) eqn:ES.
    + split; [discriminate|]. intros [_ Hg].
      destruct (proj1 HS eq_refl) as [_ Hg']. congruence.
    + split.
      * intro Hb. split; [exact Hb|].
        destruct (in_waveguide (nth i x_g 0) (nth j y_g 0)) eqn:EG;
          [|reflexivity].
        assert (Hft : false = true)
          by (apply HS; split; [now apply HBG | reflexivity]).
        discriminate Hft.
      * intros [Hb _]. exact Hb.
  - unfold geometry. repeat constructor; try discriminate.
    + intros _. exact Hin.
    + intros _. exact Hin.
Qed.

Lemma masks_match_geometry_witness :
  Np.get2 Si_mask 0 125 false = true <->
  (0%nat = 0%nat \/ 0%nat = (Nx - 1)%nat)
  /\ in_waveguide (nth 0 x_g 0) (nth 125 y_g 0) = true.
Proof.
  assert (Hi : (0 < Nx)%nat) by (change Nx with 250%nat; lia).
  assert (Hj : (125 < Ny)%nat) by (change Ny with 250%nat; lia).
  exact (proj1 (masks_match_geometry Hi Hj)).
Defined.

(** ** More on the objective *)

Module JMore.
Import Np JFacts.

Lemma Cnorm2_nonneg (z : C) : (0 <= Cnorm2 z)%R.
Proof. unfold Cnorm2. nra. Qed.

Lemma sum_nonneg (l : list R) :
  Forall (fun v => (0 <= v)%R) l -> (0 <= fold_right Rplus 0 l)%R.
Proof.
  induction 1 as [|v l Hv _ IH]; simpl; lra.
Qed.

Lemma per_frequency_nonneg (source top bottom : list C) :
  Forall (fun v => (0 <= v)%R) (per_frequency source top bottom).
Proof.
  revert top bottom.
  induction source as [|s source IH]; intros [|t top] [|b bottom];
    simpl; constructor; [|apply IH].
  unfold splitting_power.
  pose proof (Cnorm2_nonneg (Cdiv t s)). pose proof (Cnorm2_nonneg (Cdiv b s)).
  lra.
Qed.

Lemma J_mean_nonneg (source top bottom : list C) :
  (0 <= J_mean source top bottom)%R.
Proof.
  unfold J_mean.
  pose proof (sum_nonneg (per_frequency_nonneg source top bottom)) as Hs.
  destruct source as [|s source].
  - simpl. unfold Rdiv. rewrite Rmult_0_l. lra.
  - apply Rmult_le_pos; [exact Hs|].
    left. apply Rinv_0_lt_compat. apply lt_0_INR. simpl. lia.
Qed.

Lemma ratio_profile_run (coef source : list C) :
  length coef = length source ->
  Npa.divide coef source = inr (zip_with Cdiv coef source)
  /\ Npa.square (Npa.abs (zip_with Cdiv coef source))
     = ratio_profile coef source.
Proof.
  intro H. split; [now apply binop_same_length|].
  unfold ratio_profile, Npa.square, Npa.abs. revert source H.
  induction coef as [|t coef IH]; intros [|s source] H; simpl in H;
    try discriminate; cbn [map zip_with]; [reflexivity|].
  rewrite Cabs_square. f_equal. apply IH. congruence.
Qed.

Lemma profiles_sum (source top bottom : list C) :
  length top = length source -> length bottom = length source ->
  zip_with Rplus (ratio_profile top source) (ratio_profile bottom source)
  = per_frequency source top bottom.
Proof.
  unfold ratio_profile. revert top bottom.
  induction source as [|s source IH]; intros [|t top] [|b bottom] Ht Hb;
    simpl in *; try discriminate; [reflexivity|].
  unfold splitting_power. f_equal. apply IH; congruence.
Qed.

End JMore.

(** X5: the objective is never negative: for coefficient arrays with
    one entry per frequency, at least one frequency and no source
    coefficient equal to zero, [J] returns a value [>= 0]. *)
Theorem J_nonnegative {W : Type} (source top bottom : list C)
        (s : state W) :
  source <> [] -> Forall (fun z => z <> C0) source ->
  length top = length source -> length bottom = length source ->
  exists v, result (J source top bottom s) = Ok v /\ (0 <= v)%R.
Proof.
  intros _ _ Ht Hb. rewrite JFacts.J_run by assumption. simpl.
  exists (J_mean source top bottom). split; [reflexivity|].
  apply JMore.J_mean_nonneg.
Qed.

Lemma J_nonnegative_witness :
  exists v,
    result (J [(1, 0)%R] [(1, 0)%R] [(0, 1)%R] Demo.start) = Ok v
    /\ (0 <= v)%R.
Proof.
  refine (@J_nonnegative _ [(1, 0)%R] [(1, 0)%R] [(0, 1)%R] Demo.start
            _ _ eq_refl eq_refl).
  - discriminate.
  - constructor; [|constructor].
    unfold C0. intro H. apply (f_equal fst) in H. simpl in H. lra.
Defined.

(** ** Invariants carried through the optimizer and the loop *)

Section Through.

Context {W Axes Patch : Type}.
Variable L : Library W Axes Patch.

(** A property of runs, given with how it fares under each construct
    the loop is made of. *)
Variable P : forall A : Type, state W -> run W A -> Prop.

Hypothesis P_bind :
  forall (A B : Type) (m : M W A) (K : A -> M W B) (s : state W),
    P s (m s) ->
    (forall a, result (m s) = Ok a -> P (final (m s)) (K a (final (m s)))) ->
    P s (bind m K s).
Hypothesis P_ret : forall (A : Type) (a : A) (s : state W), P s (ret a s).
Hypothesis P_call :
  forall (X : Type) (fn : string) (o : op W X) (s : state W),
    P s (call fn o s).
Hypothesis P_read :
  forall (X : Type) (field : globals -> X) (s : state W),
    P s (read field s).
Hypothesis P_print_beta :
  forall (b : Z) (s : state W), P s (print (CurrentBeta b) s).
Hypothesis P_write_beta :
  forall (b : Z) (s : state W), P s (write (set_cur_beta b) s).
Hypothesis P_write_x :
  forall (v : list R) (s : state W),
    length v = length (x_var (vars s)) -> P s (write (set_x_var v) s).
Hypothesis P_f :
  forall (v g : list R) (b : Z) (s : state W), P s (f L v g b s).

Lemma through_objective (a g : list R) (s : state W) :
  P s (objective L a g s).
Proof.
  unfold objective. apply P_bind; [apply P_read|]. intros b _. apply P_f.
Qed.

Lemma through_nlopt_iterate
      (obj : list R -> list R -> M W (list R * list R)) (dim : nat) :
  (forall a g s, P s (obj a g s)) ->
  forall fuel x s, P s (nlopt_iterate L fuel obj dim x s).
Proof.
  intro Hobj. induction fuel as [|fuel IH]; intros x s; cbn [nlopt_iterate].
  - apply P_call.
  - apply P_bind; [apply Hobj|]. intros [val grad] _.
    apply P_bind; [apply P_call|]. intros [x'|] _; [apply IH | apply P_call].
Qed.

Lemma through_setter (fn : string) (o : op W unit) (sv : Solver W)
      (s : state W) :
  P s (bind (call fn o) (fun _ => ret sv) s).
Proof. apply P_bind; [apply P_call|]. intros _ _. apply P_ret. Qed.

Lemma setter_result (fn : string) (o : op W unit) (sv a : Solver W)
      (s : state W) :
  result (bind (call fn o) (fun _ => ret sv) s) = Ok a -> a = sv.
Proof.
  rewrite bind_call. destruct (o (world s)) as [[e|[]] w]; simpl;
    [discriminate|]. intro H. now inversion H.
Qed.

Lemma assign_all_length (dst src r : list R) :
  Npa.assign_all dst src = inr r -> length r = length dst.
Proof.
  unfold Npa.assign_all.
  destruct (length src =? length dst)%nat eqn:E.
  - intro H. inversion H; subst. now apply Nat.eqb_eq.
  - destruct (length src =? 1)%nat; [|discriminate].
    intro H. inversion H; subst. apply length_map.
Qed.

Lemma call_pure_result {X : Type} (fn : string) (r : exn + X) (a : X)
      (s : state W) :
  result (call_pure fn r s) = Ok a -> r = inr a.
Proof.
  rewrite call_pure_run. destruct r as [e|v]; simpl; [discriminate|].
  intro H. now inversion H.
Qed.

Lemma call_pure_final {X : Type} (fn : string) (r : exn + X) (s : state W) :
  final (call_pure fn r s) = s.
Proof. rewrite call_pure_run. now destruct r. Qed.

(** One run of the optimizer followed by [x[:] = ...]. *)
Lemma through_run_solver
      (obj : list R -> list R -> M W (list R * list R)) (s : state W) :
  (forall a g s', P s' (obj a g s')) ->
  P s (run_solver L obj s).
Proof.
  intro Hobj. unfold run_solver, nlopt_new, set_lower_bounds,
    set_upper_bounds, set_max_objective, set_maxeval, set_xtol_rel.
  apply P_bind; [apply through_setter|]. intros sv1 H1.
  apply setter_result in H1. subst sv1.
  cbn [sv_algorithm sv_n sv_lower_bounds sv_upper_bounds sv_max_objective
       sv_maxeval sv_xtol_rel].
  apply P_bind; [apply through_setter|]. intros sv2 H2.
  apply setter_result in H2. subst sv2.
  cbn [sv_algorithm sv_n sv_lower_bounds sv_upper_bounds sv_max_objective
       sv_maxeval sv_xtol_rel].
  apply P_bind; [apply through_setter|]. intros sv3 H3.
  apply setter_result in H3. subst sv3.
  cbn [sv_algorithm sv_n sv_lower_bounds sv_upper_bounds sv_max_objective
       sv_maxeval sv_xtol_rel].
  apply P_bind; [apply through_setter|]. intros sv4 H4.
  apply setter_result in H4. subst sv4.
  cbn [sv_algorithm sv_n sv_lower_bounds sv_upper_bounds sv_max_objective
       sv_maxeval sv_xtol_rel].
  apply P_bind; [apply through_setter|]. intros sv5 H5.
  apply setter_result in H5. subst sv5.
  cbn [sv_algorithm sv_n sv_lower_bounds sv_upper_bounds sv_max_objective
       sv_maxeval sv_xtol_rel].
  apply P_bind; [apply through_setter|]. intros sv6 H6.
  apply setter_result in H6. subst sv6.
  apply P_bind; [apply P_read|]. intros x0 _.
  apply P_bind.
  { unfold optimize.
    cbn [sv_algorithm sv_n sv_lower_bounds sv_upper_bounds sv_max_objective
         sv_maxeval sv_xtol_rel].
    apply P_bind; [apply P_call|]. intros _ _.
    now apply through_nlopt_iterate. }
  intros xopt _.
  match goal with |- P ?s1 _ => generalize s1 end. intro s1.
  apply P_bind; [apply P_read|]. intros x1 Hx1.
  assert (Ex1 : x1 = x_var (vars s1)) by (simpl in Hx1; now inversion Hx1).
  change (final (read x_var s1)) with s1.
  apply P_bind; [apply P_call|]. intros x2 Hx2.
  apply call_pure_result, assign_all_length in Hx2.
  rewrite call_pure_final. apply P_write_x. congruence.
Qed.

Lemma through_loop_body (iters : nat) (s : state W) :
  P s (loop_body L iters s).
Proof.
  unfold loop_body.
  apply P_bind; [apply P_read|]. intros b _.
  apply P_bind; [apply P_print_beta|]. intros _ _.
  apply P_bind; [apply through_run_solver, through_objective|]. intros _ _.
  apply P_bind; [apply P_read|]. intros b1 _. apply P_write_beta.
Qed.

Lemma through_for_each (items : list nat) (s : state W) :
  P s (for_each items (loop_body L) s).
Proof.
  revert s. induction items as [|i items IH]; intro s; cbn [for_each].
  - apply P_ret.
  - apply P_bind; [apply through_loop_body|]. intros _ _. apply IH.
Qed.

End Through.

(** Closes the goal [propagates r] for a run written out call by call. *)
Ltac run_leaf_propagates :=
  repeat apply propagates_after_returned;
  first [ apply propagates_raised | apply propagates_returned
        | apply propagates_ok ].

Section LoopInvariants.

Context {W Axes Patch : Type}.
Variable L : Library W Axes Patch.

(** *** The counter and the history *)

Lemma iteration_numbers_app (k : Z) (a b : nat) :
  iteration_numbers k (a + b)
  = iteration_numbers k a ++ iteration_numbers (k + Z.of_nat a) b.
Proof.
  unfold iteration_numbers. rewrite seq_app, map_app. f_equal.
  cbn [Nat.add]. rewrite <- (Nat.add_0_r a) at 1.
  generalize 0%nat. induction b as [|b IH]; intro c; cbn [seq map];
    [reflexivity|].
  f_equal.
  - f_equal. lia.
  - replace (S (a + c)) with (a + S c)%nat by lia. apply IH.
Qed.

Lemma length_iteration_numbers (k : Z) (j : nat) :
  length (iteration_numbers k j) = j.
Proof. unfold iteration_numbers. now rewrite length_map, length_seq. Qed.

Lemma counted_bind {A B : Type} (m : M W A) (K : A -> M W B) (s : state W) :
  counted s (m s) ->
  (forall a, result (m s) = Ok a ->
             counted (final (m s)) (K a (final (m s)))) ->
  counted s (bind m K s).
Proof.
  intros Hm HK k rest Hc.
  destruct (Hm k rest Hc) as (j1 & m1 & o1 & Hc1 & Hh1 & Hl1 & Ho1 & Hn1).
  destruct (bind_cases m K s) as [(a & Ha & ->)|(e & He & ->)];
    cbn [after final result trace].
  - destruct Hn1 as [Hn1|[[e He] _]]; [|congruence].
    destruct (HK a Ha _ _ Hc1)
      as (j2 & m2 & o2 & Hc2 & Hh2 & Hl2 & Ho2 & Hn2).
    exists (j1 + j2)%nat, (m1 ++ m2), (o1 ++ o2).
    split; [rewrite Hc2; f_equal; lia|].
    split; [rewrite Hh2, Hh1; now rewrite app_assoc|].
    split; [rewrite length_app; lia|].
    split; [rewrite Ho2, Ho1; now rewrite app_assoc|].
    rewrite filter_app, Hn1.
    destruct Hn2 as [Hn2|[He2 Hn2]]; rewrite Hn2.
    + left. now rewrite iteration_numbers_app.
    + right. split; [exact He2|].
      replace (S (j1 + j2)) with (j1 + S j2)%nat by lia.
      now rewrite iteration_numbers_app.
  - exists j1, m1, o1. repeat split; try assumption.
    destruct Hn1 as [Hn1|[_ Hn1]]; [left; exact Hn1|].
    right. split; [eauto | exact Hn1].
Qed.

(** A run that leaves the counter and the history alone and prints no
    iteration line. *)
Lemma counted_quiet {A : Type} (s : state W) (r : run W A) (out : list line) :
  cur_iter (vars (final r)) = cur_iter (vars s) ->
  evaluation_history (vars (final r)) = evaluation_history (vars s) ->
  stdout (vars (final r)) = stdout (vars s) ++ out ->
  filter is_iteration_line out = [] ->
  counted s r.
Proof.
  intros Hc Hh Ho Hf k rest Hk.
  exists 0%nat, [], out. rewrite Hc, Hh, Ho, Hk, app_nil_r, Z.add_0_r.
  repeat split. left. exact Hf.
Qed.

Lemma counted_same_vars {A : Type} (s : state W) (r : run W A) :
  vars (final r) = vars s -> counted s r.
Proof.
  intro H. apply counted_quiet with (out := []); rewrite ?H, ?app_nil_r;
    reflexivity.
Qed.

Lemma counted_f (v g : list R) (b : Z) (s : state W) :
  counted s (f L v g b s).
Proof.
  intros k rest Hc. destruct (f_run L v g b s Hc) as [_ H].
  destruct (result (f L v g b s)) as [[val g']|e] eqn:Er.
  - destruct H as (f0 & h & _ & _ & _ & ->).
    exists 1%nat, [h], [CurrentIteration (k + 1)]. simpl.
    repeat split. left. unfold iteration_numbers. simpl.
    now rewrite Z.add_0_r.
  - rewrite H. exists 0%nat, [], [CurrentIteration (k + 1)]. simpl.
    rewrite Hc, app_nil_r, Z.add_0_r. repeat split.
    right. split; [eauto|]. unfold iteration_numbers. simpl.
    now rewrite Z.add_0_r.
Qed.

Lemma counted_for_each (items : list nat) (s : state W) :
  counted s (for_each items (loop_body L) s).
Proof.
  apply (through_for_each L (fun A s r => counted s r)).
  - intros A B m K s0. apply counted_bind.
  - intros A a s0. now apply counted_same_vars.
  - intros X fn o s0. apply counted_same_vars, call_vars.
  - intros X fld s0. now apply counted_same_vars.
  - intros b s0. now apply counted_quiet with (out := [CurrentBeta b]).
  - intros b s0. now apply counted_quiet with (out := []);
      rewrite ?app_nil_r.
  - intros v s0 _. now apply counted_quiet with (out := []);
      rewrite ?app_nil_r.
  - apply counted_f.
Qed.

Lemma counted_cell_21 (s : state W) : counted s (cell_21 L s).
Proof.
  unfold cell_21.
  apply counted_bind;
    [now apply counted_quiet with (out := []); rewrite ?app_nil_r|].
  intros _ _.
  apply counted_bind;
    [now apply counted_quiet with (out := []); rewrite ?app_nil_r|].
  intros _ _. apply counted_for_each.
Qed.

(** *** The length of the design vector *)

Lemma f_keeps_x (v g : list R) (b : Z) (s : state W) :
  x_var (vars (final (f L v g b s))) = x_var (vars s).
Proof.
  destruct (cur_iter (vars s)) as [|k rest] eqn:Hc.
  - now rewrite f_run_no_counter.
  - destruct (f_run L v g b s Hc) as [_ H].
    destruct (result (f L v g b s)) as [[val g']|e].
    + now destruct H as (f0 & h & _ & _ & _ & ->).
    + now rewrite H.
Qed.

Lemma keeps_x_length_bind {A B : Type} (m : M W A) (K : A -> M W B)
      (s : state W) :
  keeps_x_length s (m s) ->
  (forall a, result (m s) = Ok a ->
             keeps_x_length (final (m s)) (K a (final (m s)))) ->
  keeps_x_length s (bind m K s).
Proof.
  unfold keeps_x_length. intros Hm HK.
  destruct (bind_cases m K s) as [(a & Ha & ->)|(e & He & ->)];
    cbn [after final]; [|exact Hm].
  now rewrite (HK a Ha).
Qed.

Lemma keeps_x_length_for_each (items : list nat) (s : state W) :
  keeps_x_length s (for_each items (loop_body L) s).
Proof.
  apply (through_for_each L (fun A s r => keeps_x_length s r)).
  - intros A B m K s0. apply keeps_x_length_bind.
  - intros A a s0. reflexivity.
  - intros X fn o s0. unfold keeps_x_length. now rewrite call_vars.
  - intros X fld s0. reflexivity.
  - intros b s0. reflexivity.
  - intros b s0. reflexivity.
  - intros v s0 Hv. exact Hv.
  - intros v g b s0. unfold keeps_x_length. now rewrite f_keeps_x.
Qed.

Lemma keeps_x_length_loop_body (iters : nat) (s : state W) :
  keeps_x_length s (loop_body L iters s).
Proof.
  apply (through_loop_body L (fun A s r => keeps_x_length s r)).
  - intros A B m K s0. apply keeps_x_length_bind.
  - intros A a s0. reflexivity.
  - intros X fn o s0. unfold keeps_x_length. now rewrite call_vars.
  - intros X fld s0. reflexivity.
  - intros b s0. reflexivity.
  - intros b s0. reflexivity.
  - intros v s0 Hv. exact Hv.
  - intros v g b s0. unfold keeps_x_length. now rewrite f_keeps_x.
Qed.

Lemma length_x_init : length x_init = (Nx * Ny)%nat.
Proof.
  unfold x_init.
  assert (Lhalf : length (map (fun v => v * 0.5) (Np.ones n)) = (Nx * Ny)%nat)
    by (unfold Np.ones; rewrite length_map, repeat_length; reflexivity).
  rewrite !BoundFacts.length_mask_assign;
    rewrite ?BoundFacts.length_mask_assign;
    rewrite ?BoundFacts.length_flat_Si, ?BoundFacts.length_flat_SiO2;
    congruence.
Qed.

(** *** Exceptions *)

Lemma propagates_from_bind {A B : Type} (m : M W A) (K : A -> M W B)
      (s : state W) :
  propagates_from s (m s) ->
  (forall a, result (m s) = Ok a ->
             propagates_from (final (m s)) (K a (final (m s)))) ->
  propagates_from s (bind m K s).
Proof.
  intros Hm HK Hc. destruct (Hm Hc) as [Hp1 Hc1].
  destruct (bind_cases m K s) as [(a & Ha & ->)|(e & He & ->)].
  - destruct (HK a Ha Hc1) as [Hp2 Hc2]. split; [|exact Hc2].
    apply propagates_after; [|exact Hp2].
    unfold propagates in Hp1. now rewrite Ha in Hp1.
  - split; [|exact Hc1].
    unfold propagates in *. cbn [result trace]. now rewrite He in Hp1.
Qed.

Lemma propagates_call {X : Type} (fn : string) (o : op W X) (s : state W) :
  propagates (call fn o s).
Proof.
  rewrite call_run. destruct (o (world s)) as [[e|v] w];
    [apply propagates_raised | apply propagates_returned].
Qed.

Lemma propagates_from_for_each (items : list nat) (s : state W) :
  propagates_from s (for_each items (loop_body L) s).
Proof.
  apply (through_for_each L (fun A s r => propagates_from s r)).
  - intros A B m K s0. apply propagates_from_bind.
  - intros A a s0 Hc. split; [apply propagates_ok | exact Hc].
  - intros X fn o s0 Hc. split; [apply propagates_call|].
    now rewrite call_vars.
  - intros X fld s0 Hc. split; [apply propagates_ok | exact Hc].
  - intros b s0 Hc. split; [apply propagates_ok | exact Hc].
  - intros b s0 Hc. split; [apply propagates_ok | exact Hc].
  - intros v s0 _ Hc. split; [apply propagates_ok | exact Hc].
  - intros v g b s0 Hc.
    destruct (cur_iter (vars s0)) as [|k rest] eqn:E; [now destruct Hc|].
    destruct (f_run L v g b s0 E) as [Hp H]. split; [exact Hp|].
    destruct (result (f L v g b s0)) as [[val g']|e].
    + now destruct H as (f0 & h & _ & _ & _ & ->).
    + rewrite H. simpl. now rewrite E.
Qed.

End LoopInvariants.

(** X7: the iteration counter and the history move together.  From a
    state where [cur_iter] is [k :: rest], cell 21 makes some number
    [j <= 72] of complete evaluations: it leaves [cur_iter[0] = k + j],
    has appended exactly [j] values to [evaluation_history], and has
    printed the iteration numbers [k+1, k+2, ...] in order without a
    gap ([k+j+1] too when an exception cut the last evaluation short).
    Run after cell 19, it ends with
    [len(evaluation_history) = cur_iter[0]]. *)
Theorem iteration_counter_matches_history
        {W Axes Patch : Type} (L : Library W Axes Patch) (s : state W)
        (k : Z) (rest : list Z) :
  cur_iter (vars s) = k :: rest ->
  (exists (j : nat) (more : list R) (out : list line),
      (j <= 72)%nat
      /\ cur_iter (vars (final (cell_21 L s))) = (k + Z.of_nat j)%Z :: rest
      /\ evaluation_history (vars (final (cell_21 L s)))
         = evaluation_history (vars s) ++ more
      /\ length more = j
      /\ stdout (vars (final (cell_21 L s))) = stdout (vars s) ++ out
      /\ (filter is_iteration_line out = iteration_numbers k j
          \/ ((exists e, result (cell_21 L s) = Raise e)
              /\ filter is_iteration_line out = iteration_numbers k (S j))))
  /\ (exists j : nat,
         (j <= 72)%nat
         /\ cur_iter (vars (final (bind cell_19 (fun _ => cell_21 L) s)))
            = [Z.of_nat j]
         /\ length (evaluation_history
                      (vars (final (bind cell_19 (fun _ => cell_21 L) s))))
            = j).
Proof.
  assert (Hgen : forall (s0 : state W) k0 rest0,
             cur_iter (vars s0) = k0 :: rest0 ->
             exists (j : nat) (more : list R) (out : list line),
               (j <= 72)%nat
               /\ cur_iter (vars (final (cell_21 L s0)))
                  = (k0 + Z.of_nat j)%Z :: rest0
               /\ evaluation_history (vars (final (cell_21 L s0)))
                  = evaluation_history (vars s0) ++ more
               /\ length more = j
               /\ stdout (vars (final (cell_21 L s0)))
                  = stdout (vars s0) ++ out
               /\ (filter is_iteration_line out = iteration_numbers k0 j
                   \/ ((exists e, result (cell_21 L s0) = Raise e)
                       /\ filter is_iteration_line out
                          = iteration_numbers k0 (S j)))).
  { intros s0 k0 rest0 Hc.
    destruct (counted_cell_21 L s0 Hc)
      as (j & more & out & Hc1 & Hh & Hl & Ho & Hn).
    exists j, more, out. repeat split; try assumption.
    assert (Hb : (iteration_lines out <= 72)%nat).
    { revert Ho. rewrite cell_21_is_schedule. unfold cell_21_schedule.
      rewrite !bind_write.
      match goal with
      | |- context [for_each _ _ ?s1] =>
          destruct (schedule_output L num_betas 0 s1)
            as (out' & j' & Hj' & Ho' & _ & Hi' & _)
      end.
      rewrite Ho'. cbn [vars stdout set_cur_beta set_x_var].
      intro E. apply app_inv_head in E. subst out'.
      unfold update_factor, num_betas in *. lia. }
    unfold iteration_lines in Hb.
    destruct Hn as [Hn|[_ Hn]]; rewrite Hn, length_iteration_numbers in Hb;
      lia. }
  intro Hc. split; [now apply Hgen|].
  unfold cell_19. rewrite bind_assoc, !bind_write.
  match goal with
  | |- context [cell_21 L ?s1] =>
      destruct (Hgen s1 0%Z [] eq_refl)
        as (j & more & out & Hj & Hc1 & Hh & Hl & _)
  end.
  exists j. split; [exact Hj|]. split; [exact Hc1|].
  rewrite Hh. exact Hl.
Qed.

Lemma iteration_counter_matches_history_witness :
  exists j : nat,
    (j <= 72)%nat
    /\ cur_iter (vars (final (bind cell_19 (fun _ => cell_21 Demo.lib)
                                Demo.start)))
       = [Z.of_nat j]
    /\ length (evaluation_history
                 (vars (final (bind cell_19 (fun _ => cell_21 Demo.lib)
                                 Demo.start))))
       = j.
Proof.
  exact (proj2 (@iteration_counter_matches_history _ _ _ Demo.lib Demo.start
                  0%Z [] eq_refl)).
Defined.

(** X8: the design vector keeps its length.  Whatever the optimizer
    returns, a round leaves [x] with the length it had ([x[:] = ...]
    either fits the result in or raises), so after cell 21, completed
    or not, [x] has [Nx * Ny] entries. *)
Theorem design_vector_keeps_length
        {W Axes Patch : Type} (L : Library W Axes Patch) (s : state W)
        (iters : nat) :
  length (x_var (vars (final (loop_body L iters s))))
  = length (x_var (vars s))
  /\ length (x_var (vars (final (cell_21 L s)))) = (Nx * Ny)%nat.
Proof.
  split; [apply keeps_x_length_loop_body|].
  unfold cell_21. rewrite !bind_write.
  match goal with
  | |- context [for_each _ _ ?s1] =>
      rewrite (keeps_x_length_for_each L (seq 0 num_betas) s1)
  end.
  cbn [vars x_var set_cur_beta set_x_var].
  rewrite length_map. apply length_x_init.
Qed.

(** X9: the loop handles no error either.  In a run of cell 21 (with
    [cur_iter] a non-empty list), of cell 25 or of cell 28, a library
    call that raises is the last call made and its exception is the
    cell's; if every library call returns, so does the cell. *)
Theorem cells_propagate_errors
        {W Axes Patch : Type} (L : Library W Axes Patch) (s : state W) :
  cur_iter (vars s) <> [] ->
  propagates (cell_21 L s)
  /\ propagates (cell_25 L s)
  /\ propagates (cell_28 L s).
Proof.
  intro Hc. split; [|split].
  - unfold cell_21. rewrite !bind_write.
    now apply (propagates_from_for_each L).
  - unfold cell_25, mapped_design, mapping. exec.
    exec_call; [run_leaf_propagates|]. exec.
    exec_call; [run_leaf_propagates|]. exec.
    exec_call; [run_leaf_propagates|]. exec.
    exec_call; [run_leaf_propagates|]. exec.
    destruct (Npa.divide _ _) as [e|qt]; [run_leaf_propagates|].
    exec. destruct (Npa.divide _ _) as [e|qb]; [run_leaf_propagates|].
    exec. unfold ret. run_leaf_propagates.
  - unfold cell_28, mapped_design, mapping. exec.
    exec_call; [run_leaf_propagates|]. exec.
    exec_call; [run_leaf_propagates|]. exec.
    do 7 (exec_call; [run_leaf_propagates|]; exec).
    rewrite call_run.
    match goal with
    | |- context [plt_show L ?w] => destruct (plt_show L w) as [[e'|v'] w']
    end; run_leaf_propagates.
Qed.

Lemma cells_propagate_errors_witness :
  propagates (cell_21 Demo.failing_lib Demo.start).
Proof.
  apply (@cells_propagate_errors _ _ _ Demo.failing_lib Demo.start).
  simpl. discriminate.
Defined.

(** ** The gradient array of the callback, and the profiles of cell 25 *)

Section CallbackMore.

Context {W Axes Patch : Type}.
Variable L : Library W Axes Patch.

Ltac gradient_leaf :=
  let Hr := fresh "Hr" in
  let Hg := fresh "Hg" in
  split;
  [ intros ? ? Hr; try discriminate Hr
  | split;
    [ intro Hg; try discriminate Hg; split; reflexivity
    | intros Hg ? ? Hr; try discriminate Hr;
      try (exfalso; apply Hg; reflexivity) ] ].

Lemma f_run_gradient (v gradient : list R) (beta : Z) (s : state W)
      (k : Z) (rest : list Z) :
  cur_iter (vars s) = k :: rest ->
  (forall val g',
      result (f L v gradient beta s) = Ok (val, g') ->
      length g' = length gradient)
  /\ (gradient = [] ->
      was_called "tensor_jacobian_product" (trace (f L v gradient beta s))
      = false
      /\ was_called "tensor_jacobian_product(mapping, 0)"
           (trace (f L v gradient beta s)) = false)
  /\ (gradient <> [] ->
      forall val g',
        result (f L v gradient beta s) = Ok (val, g') ->
        was_called "tensor_jacobian_product(mapping, 0)"
          (trace (f L v gradient beta s)) = true).
Proof.
  intro Hc.
  pattern (f L v gradient beta s).
  match goal with |- ?Q _ => set (Post := Q) end.
  unfold f.
  rewrite (get_cur_iter_0_run _ _ Hc), bind_print.
  unfold mapping at 1. rewrite !bind_assoc.
  exec_call; [gradient_leaf|]. rewrite ?bind_assoc.
  exec_call; [gradient_leaf|]. exec.
  do 7 (exec_call; [gradient_leaf|]).
  rewrite get_cur_iter_0_run with (k := k) (rest := rest) by exact Hc.
  exec_call; [gradient_leaf|].
  exec_call; [gradient_leaf|].
  destruct gradient as [|g0 gs].
  - change (0 <? length (@nil R))%nat with false. cbv iota. exec.
    destruct (Npa.max (Npa.real a)) as [e|h]; [gradient_leaf|].
    exec.
    rewrite get_cur_iter_0_run with (k := k) (rest := rest) by exact Hc.
    rewrite set_cur_iter_0_run with (k := k) (rest := rest) by exact Hc.
    exec. unfold ret. gradient_leaf.
    cbn in Hr. now inversion Hr.
  - change (0 <? length (g0 :: gs))%nat with true. cbv iota.
    rewrite ?bind_assoc.
    exec_call; [gradient_leaf|]. exec.
    exec_call; [gradient_leaf|]. exec.
    match goal with
    | |- context [Npa.assign_all (g0 :: gs) ?g] =>
        destruct (Npa.assign_all (g0 :: gs) g) as [e|gradient'] eqn:Eas;
          [gradient_leaf|]
    end.
    exec.
    destruct (Npa.max (Npa.real a)) as [e|h]; [gradient_leaf|].
    exec.
    rewrite get_cur_iter_0_run with (k := k) (rest := rest) by exact Hc.
    rewrite set_cur_iter_0_run with (k := k) (rest := rest) by exact Hc.
    exec. unfold ret. gradient_leaf.
    + cbn in Hr. inversion Hr; subst.
      now apply assign_all_length in Eas.
    + reflexivity.
Qed.

Lemma cell_25_run (s : state W) (tp bp : list R) :
  result (cell_25 L s) = Ok (tp, bp) ->
  exists source top bottom qt qb,
    (exists w w',
        opt_get_objective_arguments L w = (inr (source, top, bottom), w'))
    /\ Npa.divide top source = inr qt
    /\ Npa.divide bottom source = inr qb
    /\ tp = Npa.square (Npa.abs qt)
    /\ bp = Npa.square (Npa.abs qb).
Proof.
  unfold cell_25, mapped_design, mapping. exec.
  exec_call; [discriminate|]. exec.
  exec_call; [discriminate|]. exec.
  exec_call; [discriminate|]. exec.
  exec_call; [discriminate|]. exec.
  destruct (Npa.divide b1 a1) as [e|qt] eqn:Et; [discriminate|].
  exec. destruct (Npa.divide b0 a1) as [e|qb] eqn:Eb; [discriminate|].
  exec. unfold ret. cbn. intro H. inversion H; subst.
  exists a1, b1, b0, qt, qb. repeat split; eauto.
Qed.

End CallbackMore.

(** X10: the gradient array is filled only when the optimizer passes
    one.  With an empty array [f] never calls
    [tensor_jacobian_product]; with a non-empty one, an evaluation that
    returns has called it and hands back an array of the same length
    ([gradient[:] = ...] keeps the shape).  In no case does [f] change
    the design vector [x] or [cur_beta]. *)
Theorem callback_fills_gradient_in_place
        {W Axes Patch : Type} (L : Library W Axes Patch)
        (v gradient : list R) (beta : Z) (s : state W) :
  x_var (vars (final (f L v gradient beta s))) = x_var (vars s)
  /\ cur_beta (vars (final (f L v gradient beta s))) = cur_beta (vars s)
  /\ (forall val g',
         result (f L v gradient beta s) = Ok (val, g') ->
         length g' = length gradient)
  /\ (gradient = [] ->
      was_called "tensor_jacobian_product" (trace (f L v gradient beta s))
      = false
      /\ was_called "tensor_jacobian_product(mapping, 0)"
           (trace (f L v gradient beta s)) = false)
  /\ (gradient <> [] ->
      forall val g',
        result (f L v gradient beta s) = Ok (val, g') ->
        was_called "tensor_jacobian_product(mapping, 0)"
          (trace (f L v gradient beta s)) = true).
Proof.
  split; [apply f_keeps_x|].
  split; [apply (f_evaluates L v gradient beta s)|].
  destruct (cur_iter (vars s)) as [|k rest] eqn:Hc.
  - rewrite f_run_no_counter by exact Hc. simpl.
    split; [discriminate|]. split; [split; reflexivity | discriminate].
  - apply (f_run_gradient L v gradient beta s Hc).
Qed.

Lemma callback_fills_gradient_in_place_witness :
  was_called "tensor_jacobian_product"
    (trace (f Demo.lib [] [] 4 Demo.start)) = false
  /\ was_called "tensor_jacobian_product(mapping, 0)"
       (trace (f Demo.lib [] [] 4 Demo.start)) = false.
Proof.
  exact (proj1 (proj2 (proj2 (proj2
    (callback_fills_gradient_in_place Demo.lib [] [] 4 Demo.start))))
    eq_refl).
Defined.

(** X11: the two profiles computed in cell 25 are the two terms of the
    objective.  When cell 25 returns, its profiles are [|top/source|^2]
    and [|bottom/source|^2] of the coefficients [opt] holds, and for
    arrays of one length [J] of these coefficients is the mean of
    [top_profile + bottom_profile]. *)
Theorem profiles_are_terms_of_J
        {W Axes Patch : Type} (L : Library W Axes Patch) (s : state W)
        (top_profile bottom_profile : list R) :
  result (cell_25 L s) = Ok (top_profile, bottom_profile) ->
  exists source top bottom,
    (exists w w',
        opt_get_objective_arguments L w = (inr (source, top, bottom), w'))
    /\ (length top = length source -> length bottom = length source ->
        top_profile = ratio_profile top source
        /\ bottom_profile = ratio_profile bottom source
        /\ forall s' : state W,
            result (J source top bottom s')
            = Ok (Npa.mean (Np.zip_with Rplus top_profile bottom_profile))).
Proof.
  intro H.
  destruct (cell_25_run L s H)
    as (source & top & bottom & qt & qb & Hw & Et & Eb & -> & ->).
  exists source, top, bottom. split; [exact Hw|].
  intros Ht Hb.
  destruct (JMore.ratio_profile_run top source Ht) as [Et' Pt].
  destruct (JMore.ratio_profile_run bottom source Hb) as [Eb' Pb].
  rewrite Et' in Et. rewrite Eb' in Eb.
  inversion Et; subst qt. inversion Eb; subst qb.
  rewrite Pt, Pb. repeat split.
  intro s'. rewrite JFacts.J_run by assumption. simpl.
  rewrite JMore.profiles_sum by assumption.
  unfold Npa.mean, Npa.sum, J_mean.
  now rewrite JFacts.length_per_frequency by assumption.
Qed.

Lemma profiles_are_terms_of_J_witness :
  exists top_profile bottom_profile,
    result (cell_25 Demo.lib Demo.start) = Ok (top_profile, bottom_profile)
    /\ exists source top bottom,
        (exists w w',
            opt_get_objective_arguments Demo.lib w
            = (inr (source, top, bottom), w'))
        /\ (length top = length source -> length bottom = length source ->
            top_profile = ratio_profile top source
            /\ bottom_profile = ratio_profile bottom source
            /\ forall s' : state Demo.world,
                result (J source top bottom s')
                = Ok (Npa.mean
                        (Np.zip_with Rplus top_profile bottom_profile))).
Proof.
  eexists. eexists. split; [reflexivity|].
  apply (@profiles_are_terms_of_J _ _ _ Demo.lib Demo.start).
  reflexivity.
Defined.

(** ** A loop cut short by an exception *)

Section Interrupted.

Context {W Axes Patch : Type}.
Variable L : Library W Axes Patch.

Lemma round_at_interrupted (b : Z) (s : state W) (e : exn) :
  cur_beta (vars s) = b ->
  result (round_at L b s) = Raise e ->
  cur_beta (vars (final (round_at L b s))) = b.
Proof.
  intro Hb. unfold round_at. rewrite bind_print.
  set (s1 := State (world s) _).
  destruct (run_solver_evaluates L (fun a g => f L a g b) s1
              (fun a g s' => f_evaluates L a g b s')) as [Hk _].
  destruct (bind_cases (run_solver L (fun a g => f L a g b))
              (fun _ => write (set_cur_beta (b * beta_scale))) s1)
    as [(a & _ & ->)|(e' & _ & ->)]; cbn [after final result];
    [discriminate|].
  intros _. rewrite Hk. exact Hb.
Qed.

Lemma schedule_interrupted (count : nat) :
  forall k0 s e,
    cur_beta (vars s) = beta_of_round k0 ->
    result (for_each (seq k0 count)
              (fun k => round_at L (beta_of_round k)) s) = Raise e ->
    exists (j : nat) (out : list line),
      (j < count)%nat
      /\ cur_beta (vars (final (for_each (seq k0 count)
                                  (fun k => round_at L (beta_of_round k)) s)))
         = beta_of_round (k0 + j)
      /\ stdout (vars (final (for_each (seq k0 count)
                                (fun k => round_at L (beta_of_round k)) s)))
         = stdout (vars s) ++ out
      /\ filter is_beta_line out
         = map (fun k => CurrentBeta (beta_of_round k)) (seq k0 (S j)).
Proof.
  induction count as [|count IH]; intros k0 s e Hb; cbn [seq for_each];
    [discriminate|].
  destruct (round_at_output L (beta_of_round k0) s)
    as (o1 & Ho1 & _ & Hb1).
  assert (Hf1 : filter is_beta_line o1 = []).
  { unfold beta_lines in Hb1. now apply length_zero_iff_nil. }
  destruct (bind_cases (round_at L (beta_of_round k0))
              (fun _ => for_each (seq (S k0) count)
                          (fun k => round_at L (beta_of_round k))) s)
    as [([] & Hok & ->)|(e' & He' & ->)]; cbn [after final result trace].
  - intro Hr.
    destruct (IH (S k0) (final (round_at L (beta_of_round k0) s)) e)
      as (j & o2 & Hj & Hc2 & Ho2 & Hf2); [|exact Hr|].
    { rewrite beta_of_round_S. now apply round_at_beta. }
    exists (S j), (CurrentBeta (beta_of_round k0) :: o1 ++ o2).
    split; [lia|].
    split; [rewrite Hc2; f_equal; lia|].
    split; [rewrite Ho2, Ho1, <- app_assoc; reflexivity|].
    cbn [filter is_beta_line]. rewrite filter_app, Hf1, Hf2. reflexivity.
  - intros _.
    exists 0%nat, (CurrentBeta (beta_of_round k0) :: o1).
    split; [lia|].
    split; [rewrite Nat.add_0_r;
            now apply round_at_interrupted with (e := e')|].
    split; [exact Ho1|].
    cbn [filter is_beta_line seq map]. now rewrite Hf1.
Qed.

End Interrupted.

(** X12: a round cut short by an exception does not advance the
    schedule.  When cell 21 raises, some round [j] (0..5) was the last
    one started; the beta lines printed are those of rounds 0..j and
    [cur_beta] still holds the sharpness [4 * 2^j] of that round, the
    last value printed. *)
Theorem interrupted_loop_keeps_beta
        {W Axes Patch : Type} (L : Library W Axes Patch) (s : state W)
        (e : exn) :
  result (cell_21 L s) = Raise e ->
  exists (j : nat) (out : list line),
    (j < num_betas)%nat
    /\ cur_beta (vars (final (cell_21 L s))) = (4 * 2 ^ Z.of_nat j)%Z
    /\ stdout (vars (final (cell_21 L s))) = stdout (vars s) ++ out
    /\ filter is_beta_line out
       = map (fun k => CurrentBeta (4 * 2 ^ Z.of_nat k)) (seq 0 (S j)).
Proof.
  rewrite cell_21_is_schedule. unfold cell_21_schedule.
  rewrite !bind_write. intro Hr.
  pose proof (schedule_interrupted L num_betas) as HH.
  match type of Hr with
  | result (for_each _ _ ?s1) = _ => specialize (HH 0%nat s1 e eq_refl Hr)
  end.
  destruct HH as (j & out & Hj & Hc & Ho & Hf).
  exists j, out. split; [exact Hj|]. split; [exact Hc|].
  split; [exact Ho | exact Hf].
Qed.

Lemma interrupted_loop_keeps_beta_witness :
  exists (j : nat) (out : list line),
    (j < num_betas)%nat
    /\ cur_beta (vars (final (cell_21 Demo.failing_lib Demo.start)))
       = (4 * 2 ^ Z.of_nat j)%Z
    /\ stdout (vars (final (cell_21 Demo.failing_lib Demo.start)))
       = stdout (vars Demo.start) ++ out
    /\ filter is_beta_line out
       = map (fun k => CurrentBeta (4 * 2 ^ Z.of_nat k)) (seq 0 (S j)).
Proof.
  apply (@interrupted_loop_keeps_beta _ _ _ Demo.failing_lib Demo.start
           (Exn "RuntimeError")).
  reflexivity.
Defined.
